(** * KaiaFun MCP: the SDK client, event extraction and the tool handlers

    A shallow embedding of [src/sdk/abi.ts], [src/sdk/chain.ts],
    [src/sdk/client.ts], [src/sdk/utils.ts] and of the conversion and URL
    handlers of [src/kaiafun-mcp-server.ts].

    JavaScript strings are modelled as [string]: a character stands for
    a UTF-16 code unit below 256, which covers every string the modelled
    code inspects character by character (addresses, decimal amounts).
    [bigint] is [Z].
    Calls that leave the process (RPC reads, contract writes, HTTP posts,
    the clock, the console) are recorded in a trace and answered by an
    explicit environment. *)

From Stdlib Require Import List String Ascii ZArith NArith Lia Bool Arith.
From Stdlib Require Import DecimalString DecimalZ DecimalN DecimalFacts DecimalPos.
Import ListNotations.

Set Warnings "-register-all".

Local Open Scope list_scope.
Local Open Scope string_scope.
Local Open Scope Z_scope.

(** ** JavaScript values, errors and completions *)

Module JS.

(** A JSON-like JavaScript value.  Objects keep their keys in insertion
    order, as [JSON.stringify] and property lookup observe them. *)
Inductive Value : Type :=
| Undefined
| Null
| Bool (b : bool)
| Number (n : Z)
| Str (s : string)
| Array (items : list Value)
| Object (fields : list (string * Value)).

(** A thrown value: an [Error] with its constructor name, its message,
    the [code] property some libraries attach, and what
    [JSON.stringify(error, null, 2)] throws when the error cannot be
    serialised (it carries a [bigint] or a cycle among its properties);
    [None] when the serialisation completes. *)
Inductive Error : Type := mkErrorObject {
  error_name : string;
  message : string;
  code : option string;
  stringify_throws : option Error
}.

(** An error whose own properties serialise, as the errors this code and
    its libraries construct from strings do. *)
Definition mkErrorWithCode (name msg : string) (code : option string) : Error :=
  mkErrorObject name msg code None.

Definition mkError (name msg : string) : Error := mkErrorWithCode name msg None.

(** [new Error(msg)] *)
Definition new_Error (msg : string) : Error := mkError "Error" msg.

(** The outcome of evaluating an expression: a value or a throw. *)
Inductive Completion (A : Type) : Type :=
| Return (a : A)
| Throw (e : Error).
Arguments Return {A} a.
Arguments Throw {A} e.

(** [JSON.stringify(error, null, 2)], of which only the completion is
    observed. *)
Definition JSON_stringify_error (error : Error) : Completion unit :=
  match stringify_throws error with
  | Some thrown => Throw thrown
  | None => Return tt
  end.

(** [try { return c } catch { return undefined }] *)
Definition try_or_undefined {A : Type} (c : Completion A) : option A :=
  match c with
  | Return a => Some a
  | Throw _ => None
  end.

(** Own-property lookup in an association list of fields. *)
Fixpoint lookup_field (k : string) (fields : list (string * Value)) : option Value :=
  match fields with
  | [] => None
  | (k', v) :: rest => if String.eqb k k' then Some v else lookup_field k rest
  end.

(** [v.k] for a data value [v]: a [TypeError] on [undefined] and [null],
    [undefined] when the property is missing.  Strings, numbers and
    booleans have no own data property named by the keys used here
    ([url], [hash], [tokenAddress], [amount]). *)
Definition get_property (v : Value) (k : string) : Completion Value :=
  match v with
  | Undefined => Throw (mkError "TypeError" "Cannot read properties of undefined")
  | Null => Throw (mkError "TypeError" "Cannot read properties of null")
  | Object fields =>
      match lookup_field k fields with
      | Some x => Return x
      | None => Return Undefined
      end
  | _ => Return Undefined
  end.

(** JavaScript truthiness, as [!v] and [v || d] test it. *)
Definition truthy (v : Value) : bool :=
  match v with
  | Undefined | Null => false
  | Bool b => b
  | Number n => negb (n =? 0)
  | Str s => negb (String.eqb s "")
  | Array _ | Object _ => true
  end.

(** [a === b] on optional strings, [None] standing for [undefined]. *)
Definition strict_eq_opt_string (a b : option string) : bool :=
  match a, b with
  | None, None => true
  | Some x, Some y => String.eqb x y
  | _, _ => false
  end.

End JS.

(** ** [src/sdk/abi.ts] *)

Module ABI.

Record AbiParameter : Type := mkParam {
  indexed : option bool;
  internalType : string;
  param_name : string;
  param_type : string
}.

Record AbiItem : Type := mkItem {
  anonymous : option bool;
  inputs : list AbiParameter;
  name : string;
  outputs : option (list AbiParameter);
  stateMutability : option string;
  item_type : string
}.

Definition Abi : Type := list AbiItem.

Definition buyWithETH : AbiItem := {|
  anonymous := None;
  inputs := [ mkParam None "address" "_tokenAddress" "address";
              mkParam None "uint256" "_minTokenAmount" "uint256" ];
  name := "buyWithETH";
  outputs := Some [];
  stateMutability := Some "payable";
  item_type := "function"
|}.

Definition listWithETH : AbiItem := {|
  anonymous := None;
  inputs := [ mkParam None "address" "_wethAddress" "address";
              mkParam None "string" "_name" "string";
              mkParam None "string" "_symbol" "string";
              mkParam None "string" "_metadataHash" "string" ];
  name := "listWithETH";
  outputs := Some [];
  stateMutability := Some "payable";
  item_type := "function"
|}.

Definition sell : AbiItem := {|
  anonymous := None;
  inputs := [ mkParam None "address" "_tokenAddress" "address";
              mkParam None "uint256" "_tokenAmount" "uint256";
              mkParam None "uint256" "_minBaseTokenAmount" "uint256";
              mkParam None "bool" "_isOutputETH" "bool" ];
  name := "sell";
  outputs := Some [ mkParam None "uint256" "_baseTokenAfterFee" "uint256" ];
  stateMutability := Some "nonpayable";
  item_type := "function"
|}.

Definition TradeEvent : AbiItem := {|
  anonymous := Some false;
  inputs := [ mkParam (Some true) "address" "tokenAddress" "address";
              mkParam (Some true) "address" "sender" "address";
              mkParam (Some false) "uint256" "baseIn" "uint256";
              mkParam (Some false) "uint256" "tokenIn" "uint256";
              mkParam (Some false) "uint256" "baseOut" "uint256";
              mkParam (Some false) "uint256" "tokenOut" "uint256";
              mkParam (Some false) "uint256" "baseFee" "uint256";
              mkParam (Some false) "address" "instrument" "address" ];
  name := "Trade";
  outputs := None;
  stateMutability := None;
  item_type := "event"
|}.

Definition ListEvent : AbiItem := {|
  anonymous := Some false;
  inputs := [ mkParam (Some true) "address" "creator" "address";
              mkParam (Some true) "address" "tokenAddress" "address";
              mkParam (Some true) "address" "baseTokenAddress" "address";
              mkParam (Some false) "string" "name" "string";
              mkParam (Some false) "string" "symbol" "string";
              mkParam (Some false) "string" "metadataHash" "string" ];
  name := "List";
  outputs := None;
  stateMutability := None;
  item_type := "event"
|}.

End ABI.

(** ** [src/sdk/chain.ts] *)

Module Chain.

Record NativeCurrency : Type := mkCurrency {
  decimals : Z;
  currency_name : string;
  symbol : string
}.

Record Chain : Type := mkChain {
  id : Z;
  name : string;
  nativeCurrency : NativeCurrency;
  rpcUrls : list string;
  blockExplorer : string
}.

Definition kaiaMainnet : Chain := {|
  id := 8217;
  name := "Kaia";
  nativeCurrency := mkCurrency 18 "Kaia" "KAIA";
  rpcUrls := [ "https://public-en.node.kaia.io" ];
  blockExplorer := "https://klaytnscope.com"
|}.

End Chain.

(** ** Receipts, logs and decoded events (the shapes viem hands back) *)

Module Receipt.

Definition Hex : Type := string.

Record Log : Type := mkLog {
  address : Hex;
  topics : list Hex;
  data : Hex;
  logIndex : Z
}.

Record TransactionReceipt : Type := mkReceipt {
  status : string;
  transactionHash : Hex;
  logs : list Log
}.

(** A decoded event argument of the ABI types the two events use. *)
Inductive ArgValue : Type :=
| AddressValue (a : Hex)
| UintValue (n : Z)
| StringValue (s : string).

(** What [decodeEventLog] returns: the name of the matched ABI event and
    its decoded arguments by parameter name. *)
Record DecodedEvent : Type := mkDecoded {
  eventName : string;
  args : list (string * ArgValue)
}.

(** viem's [decodeEventLog({abi, data, topics})]: returns the decoded
    event or throws.  It belongs to the blockchain-access library, so the
    code below takes it as an argument. *)
Definition Decoder : Type :=
  ABI.Abi -> Hex -> list Hex -> JS.Completion DecodedEvent.

End Receipt.

(** ** [src/sdk/utils.ts] *)

Module Utils.
Import Receipt.

Section GetEvent.

Variable decodeEventLog : Decoder.

(** The callback of [.map]: decode one log, [undefined] if decoding throws. *)
Definition decode_or_undefined (abi : ABI.Abi) (log : Log) : option DecodedEvent :=
  JS.try_or_undefined (decodeEventLog abi (data log) (topics log)).

(** The callback of [.find]: [log?.eventName === eventName]. *)
Definition name_matches (eventName : option string) (log : option DecodedEvent) : bool :=
  JS.strict_eq_opt_string (option_map Receipt.eventName log) eventName.

(** [receipt?.logs.map(...).find(...)].  An absent receipt short-circuits
    to [undefined]; [find] gives [undefined] when nothing matches, and
    also when the element it stops at is itself [undefined]. *)
Definition getEventFromReceipt
    (receipt : option TransactionReceipt) (abi : ABI.Abi)
    (eventName : option string) : option DecodedEvent :=
  match receipt with
  | None => None
  | Some r =>
      match find (name_matches eventName) (map (decode_or_undefined abi) (logs r)) with
      | Some found => found
      | None => None
      end
  end.

End GetEvent.

(** The contract of event extraction in the words of the specification:
    walk the logs in order, skip a log that does not decode, return the
    first decoded entry whose name is the target. *)
Fixpoint first_event_named
    (decode : Log -> option DecodedEvent) (target : string)
    (ls : list Log) : option DecodedEvent :=
  match ls with
  | [] => None
  | l :: rest =>
      match decode l with
      | Some d =>
          if String.eqb (eventName d) target then Some d
          else first_event_named decode target rest
      | None => first_event_named decode target rest
      end
  end.

(** What [getEventFromReceipt] reads of a log. *)
Definition log_content (l : Log) : Hex * list Hex := (data l, topics l).

End Utils.

(** ** JavaScript string and bigint primitives used by the code *)

Module JSString.

Definition chars (s : string) : list ascii := list_ascii_of_string s.
Definition of_chars (l : list ascii) : string := string_of_list_ascii l.

Definition is_digit (c : ascii) : bool :=
  ((48 <=? nat_of_ascii c) && (nat_of_ascii c <=? 57))%nat.

(** [s.startsWith(c)] for a one-character [c]. *)
Definition startsWith (c : ascii) (s : string) : bool :=
  match s with
  | String c' _ => Ascii.eqb c' c
  | EmptyString => false
  end.

(** [s.slice(from)] and [s.slice(from, to)] for non-negative indices. *)
Definition slice_from (from : nat) (s : string) : string :=
  of_chars (skipn from (chars s)).
Definition slice (from to : nat) (s : string) : string :=
  of_chars (firstn (to - from) (skipn from (chars s))).

(** [s.padStart(n, '0')] and [s.padEnd(n, '0')]. *)
Definition padStart0 (n : nat) (s : string) : string :=
  of_chars (repeat "0"%char (n - String.length s) ++ chars s)%list.
Definition padEnd0 (n : nat) (s : string) : string :=
  of_chars (chars s ++ repeat "0"%char (n - String.length s))%list.

Fixpoint drop_zeros (l : list ascii) : list ascii :=
  match l with
  | c :: r => if Ascii.eqb c "0" then drop_zeros r else l
  | [] => []
  end.

(** [s.replace(/(0+)$/, '')]: the longest run of zeros at the end goes. *)
Definition trim_trailing_zeros (s : string) : string :=
  of_chars (rev (drop_zeros (rev (chars s)))).

(** [s.split(sep)] for a one-character separator. *)
Fixpoint split_chars (sep : ascii) (l : list ascii) : list (list ascii) :=
  match l with
  | [] => [ [] ]
  | c :: r =>
      if Ascii.eqb c sep then [] :: split_chars sep r
      else match split_chars sep r with
           | h :: t => (c :: h) :: t
           | [] => [ [c] ]
           end
  end.
Definition split (sep : ascii) (s : string) : list string :=
  map of_chars (split_chars sep (chars s)).

Fixpoint drop_while (p : ascii -> bool) (l : list ascii) : list ascii :=
  match l with
  | c :: r => if p c then drop_while p r else l
  | [] => []
  end.

(** White space and line terminators, as [String.prototype.trim] and
    [StringToBigInt] strip them: of the code points ECMAScript lists,
    U+0009 to U+000D, U+0020 and U+00A0 lie below 256. *)
Definition is_white_space (c : ascii) : bool :=
  let n := nat_of_ascii c in
  ((9 <=? n) && (n <=? 13) || (n =? 32) || (n =? 160))%nat.

Definition trim_chars (l : list ascii) : list ascii :=
  rev (drop_while is_white_space (rev (drop_while is_white_space l))).

(** The line feed inside a multi-line template literal. *)
Definition nl : string := String (ascii_of_nat 10) "".

(** [s.toLowerCase()]: the upper-case letters below 256 are U+0041 to
    U+005A and U+00C0 to U+00DE without the sign U+00D7; each has its
    lower-case letter 32 places on. *)
Definition lower_char (c : ascii) : ascii :=
  let n := nat_of_ascii c in
  if ((65 <=? n) && (n <=? 90)
      || (192 <=? n) && (n <=? 222) && negb (n =? 215))%nat
  then ascii_of_nat (n + 32) else c.
Definition toLowerCase (s : string) : string :=
  of_chars (map lower_char (chars s)).

End JSString.

Module BigInt.
Import JSString.

(** The value of one digit in the given base, letters counting from ten. *)
Definition digit_value (base : N) (c : ascii) : option N :=
  let n := N.of_nat (nat_of_ascii c) in
  let v :=
    if ((48 <=? n) && (n <=? 57))%N then Some (n - 48)%N
    else if ((97 <=? n) && (n <=? 122))%N then Some (n - 87)%N
    else if ((65 <=? n) && (n <=? 90))%N then Some (n - 55)%N
    else None in
  match v with
  | Some d => if (d <? base)%N then Some d else None
  | None => None
  end.

Fixpoint digits_value (base : N) (acc : N) (l : list ascii) : option N :=
  match l with
  | [] => Some acc
  | c :: r =>
      match digit_value base c with
      | Some d => digits_value base (acc * base + d)%N r
      | None => None
      end
  end.

(** One or more digits of the base. *)
Definition numeral (base : N) (l : list ascii) : option Z :=
  match l with
  | [] => None
  | _ => option_map Z.of_N (digits_value base 0%N l)
  end.

Definition has_prefix (a b B : ascii) (l : list ascii) : option (list ascii) :=
  match l with
  | c0 :: c1 :: r =>
      if Ascii.eqb c0 a && (Ascii.eqb c1 b || Ascii.eqb c1 B) then Some r else None
  | _ => None
  end.

(** ECMAScript [StringToBigInt]: white space is trimmed, the empty
    string is zero, then a decimal numeral with an optional sign or an
    unsigned numeral with a [0x], [0o] or [0b] prefix; anything else is
    no bigint. *)
Definition StringToBigInt (s : string) : option Z :=
  let t := trim_chars (chars s) in
  match t with
  | [] => Some 0
  | c :: r =>
      match has_prefix "0" "x" "X" t, has_prefix "0" "o" "O" t, has_prefix "0" "b" "B" t with
      | Some h, _, _ => numeral 16 h
      | _, Some o, _ => numeral 8 o
      | _, _, Some b => numeral 2 b
      | None, None, None =>
          if Ascii.eqb c "-" then option_map Z.opp (numeral 10 r)
          else if Ascii.eqb c "+" then numeral 10 r
          else numeral 10 t
      end
  end.

(** [BigInt(s)] for a string argument: a [SyntaxError] when the string
    is no bigint literal. *)
Definition of_string (s : string) : JS.Completion Z :=
  match StringToBigInt s with
  | Some z => JS.Return z
  | None => JS.Throw (JS.mkError "SyntaxError" ("Cannot convert " ++ s ++ " to a BigInt"))
  end.

(** [z.toString()], also the interpolation of a bigint or of an integral
    number into a template string. *)
Definition toString (z : Z) : string := NilZero.string_of_int (Z.to_int z).

End BigInt.

(** ** viem's unit conversions, as the code calls them *)

Module Viem.
Import JSString.

(** [let* x := c in k]: sequencing of completions, a throw propagates. *)
Definition bind {A B : Type} (c : JS.Completion A) (k : A -> JS.Completion B)
    : JS.Completion B :=
  match c with
  | JS.Return a => k a
  | JS.Throw e => JS.Throw e
  end.

Notation "'let*' x ':=' c 'in' k" := (bind c (fun x => k))
  (at level 10, x name, c at level 100, k at level 200).
Notation "'let*' ' p ':=' c 'in' k" :=
  (bind c (fun x => match x with p => k end))
  (at level 10, p pattern, c at level 100, k at level 200).

(** The test against the library's regular expression for decimal
    numbers, anchored at both ends: an optional minus sign, any number of
    digits, an optional point, any number of digits. *)
Definition is_decimal_number (value : string) : bool :=
  let s0 := chars value in
  let s1 := match s0 with
            | c :: r => if Ascii.eqb c "-" then r else s0
            | [] => s0
            end in
  let s2 := drop_while is_digit s1 in
  let s3 := match s2 with
            | c :: r => if Ascii.eqb c "." then r else s2
            | [] => s2
            end in
  forallb is_digit s3.

Definition InvalidDecimalNumberError (value : string) : JS.Error :=
  JS.mkError "InvalidDecimalNumberError"
    ("Number `" ++ value ++ "` is not a valid decimal number.").

Section Units.

(** [Math.round(Number(s))] is evaluated in double precision by the
    JavaScript engine; it is only reached for amounts with more
    significant fraction digits than the unit has decimals. *)
Variable Math_round_Number : string -> Z.

(** Modelled from the spec: [parseUnits] and [parseEther] are functions
    of the viem library, which is not under [src/]; the spec describes
    the conversion of a display amount to the smallest unit at 18
    decimals (["1.5"] becomes [1500000000000000000]).  The steps are
    those of the library's [parseUnits(value, decimals)]. *)
Definition parseUnits (value : string) (decimals : nat) : JS.Completion Z :=
  if negb (is_decimal_number value) then JS.Throw (InvalidDecimalNumberError value)
  else
    let parts := split "." value in
    let integer := nth 0 parts "" in
    let fraction := match nth_error parts 1 with Some f => f | None => "0" end in
    let negative := startsWith "-" integer in
    let integer := if negative then slice_from 1 integer else integer in
    let fraction := trim_trailing_zeros fraction in
    let* '(integer, fraction) :=
      if (decimals =? 0)%nat then
        if Math_round_Number ("." ++ fraction) =? 1 then
          let* i := BigInt.of_string integer in
          JS.Return (BigInt.toString (i + 1), "")
        else JS.Return (integer, "")
      else if (decimals <? String.length fraction)%nat then
        let left := slice 0 (decimals - 1) fraction in
        let unit := slice (decimals - 1) decimals fraction in
        let right := slice_from decimals fraction in
        let rounded := Math_round_Number (unit ++ "." ++ right) in
        let* fraction :=
          if 9 <? rounded then
            let* l := BigInt.of_string left in
            JS.Return (padStart0 (String.length left + 1) (BigInt.toString (l + 1) ++ "0"))
          else JS.Return (left ++ BigInt.toString rounded) in
        let* '(integer, fraction) :=
          if (decimals <? String.length fraction)%nat then
            let* i := BigInt.of_string integer in
            JS.Return (BigInt.toString (i + 1), slice_from 1 fraction)
          else JS.Return (integer, fraction) in
        JS.Return (integer, slice 0 decimals fraction)
      else JS.Return (integer, padEnd0 decimals fraction) in
    BigInt.of_string ((if negative then "-" else "") ++ integer ++ fraction).

(** [parseEther(ether)] is [parseUnits(ether, etherUnits.wei)], 18 decimals. *)
Definition parseEther (ether : string) : JS.Completion Z := parseUnits ether 18.

End Units.

(** Modelled from the spec: [formatUnits] and [formatEther] are
    functions of the viem library, which is not under [src/]; the spec
    describes the conversion from the smallest unit back to the display
    amount ([1500000000000000000] becomes ["1.5"]).  The steps are those
    of the library's [formatUnits(value, decimals)]. *)
Definition formatUnits (value : Z) (decimals : nat) : string :=
  let display := BigInt.toString value in
  let negative := startsWith "-" display in
  let display := if negative then slice_from 1 display else display in
  let display := padStart0 decimals display in
  let integer := slice 0 (String.length display - decimals) display in
  let fraction := slice_from (String.length display - decimals) display in
  let fraction := trim_trailing_zeros fraction in
  (if negative then "-" else "")
    ++ (if String.eqb integer "" then "0" else integer)
    ++ (if String.eqb fraction "" then "" else "." ++ fraction).

(** [formatEther(wei)] is [formatUnits(wei, etherUnits.wei)], 18 decimals. *)
Definition formatEther (wei : Z) : string := formatUnits wei 18.

End Viem.

(** ** [JSON.stringify] *)

Module JSON.

(** The double quote and the backslash, by code. *)
Definition dquote : ascii := "034"%char.
Definition backslash : ascii := "092"%char.

Definition hex_digit (n : nat) : ascii :=
  if (n <? 10)%nat then ascii_of_nat (48 + n) else ascii_of_nat (87 + n).

(** [QuoteJSONString] on one character: the quote, the backslash and the
    control characters are escaped. *)
Definition escape_char (c : ascii) : list ascii :=
  let n := nat_of_ascii c in
  if Ascii.eqb c dquote then [backslash; dquote]
  else if Ascii.eqb c backslash then [backslash; backslash]
  else if (n =? 8)%nat then [backslash; "b"%char]
  else if (n =? 9)%nat then [backslash; "t"%char]
  else if (n =? 10)%nat then [backslash; "n"%char]
  else if (n =? 12)%nat then [backslash; "f"%char]
  else if (n =? 13)%nat then [backslash; "r"%char]
  else if (n <? 32)%nat then
    [backslash; "u"%char; "0"%char; "0"%char; hex_digit (n / 16); hex_digit (n mod 16)]
  else [c].

Definition quote (s : string) : string :=
  JSString.of_chars
    ([dquote] ++ flat_map escape_char (JSString.chars s) ++ [dquote])%list.

(** [JSON.stringify(v)]: [None] is the result [undefined].  A property
    whose value is [undefined] is left out of an object; in an array it
    is written [null]. *)
Fixpoint stringify (v : JS.Value) : option string :=
  match v with
  | JS.Undefined => None
  | JS.Null => Some "null"
  | JS.Bool true => Some "true"
  | JS.Bool false => Some "false"
  | JS.Number n => Some (BigInt.toString n)
  | JS.Str s => Some (quote s)
  | JS.Array items =>
      Some ("[" ++ String.concat ","
                     (map (fun x => match stringify x with
                                    | Some s => s
                                    | None => "null"
                                    end) items)
                ++ "]")
  | JS.Object fields =>
      Some ("{" ++ String.concat ","
                     (flat_map (fun kv => match stringify (snd kv) with
                                          | Some s => [quote (fst kv) ++ ":" ++ s]
                                          | None => []
                                          end) fields)
                ++ "}")
  end.

End JSON.

(** ** The environment the code runs against, and its call trace *)

Module IO.
Import Receipt.

(** A [File]: name, MIME type and content. *)
Record File : Type := mkFile {
  file_name : string;
  file_type : string;
  content : list ascii
}.

(** A request body handed to [axios.post]. *)
Inductive Body : Type :=
| JsonBody (v : JS.Value)
| FileBody (f : File).

(** One argument of a contract call. *)
Inductive Arg : Type :=
| AddressArg (a : Hex)
| UintArg (n : Z)
| BoolArg (b : bool)
| StringArg (s : string)
| ValueArg (v : JS.Value).

(** The parameter object of [walletClient.writeContract]. *)
Record WriteContractParameters : Type := mkWrite {
  to : Hex;
  abi : ABI.Abi;
  functionName : string;
  args : list Arg;
  value : option Z
}.

(** A call that leaves the process, in the order it was made. *)
Inductive Call : Type :=
| GetBalance (address : Hex)
| DateNow
| Post (url : string) (body : Body) (headers : list (string * string))
| WriteContract (p : WriteContractParameters)
| WaitForTransactionReceipt (hash : Hex)
| ConsoleError (label : string).

(** What the network gives back for one HTTP request. *)
Inductive HttpOutcome : Type :=
| NetworkError (e : JS.Error)
| Response (status : Z) (data : JS.Value).

(** The collaborators: the chain connection, the HTTP endpoint, the
    clock, and the library functions the code calls through. *)
Record Env : Type := mkEnv {
  getBalance : Hex -> JS.Completion Z;
  http_post : string -> Body -> list (string * string) -> HttpOutcome;
  writeContract : WriteContractParameters -> JS.Completion Hex;
  waitForTransactionReceipt : Hex -> JS.Completion TransactionReceipt;
  Date_now : Z;
  decodeEventLog : Decoder;
  Math_round_Number : string -> Z
}.

Definition Trace : Type := list Call.

(** An asynchronous computation: it reads the environment, appends to
    the trace, and completes with a value or a throw. *)
Definition M (A : Type) : Type := Env -> Trace -> JS.Completion A * Trace.

Definition ret {A : Type} (a : A) : M A := fun _ t => (JS.Return a, t).
Definition throw {A : Type} (e : JS.Error) : M A := fun _ t => (JS.Throw e, t).
Definition bind {A B : Type} (m : M A) (k : A -> M B) : M B :=
  fun env t =>
    match m env t with
    | (JS.Return a, t') => k a env t'
    | (JS.Throw e, t') => (JS.Throw e, t')
    end.

(** [try { body } catch (error) { handler }] *)
Definition try_catch {A : Type} (body : M A) (handler : JS.Error -> M A) : M A :=
  fun env t =>
    match body env t with
    | (JS.Return a, t') => (JS.Return a, t')
    | (JS.Throw e, t') => handler e env t'
    end.

(** A call to a collaborator: it is recorded, then answered. *)
Definition call {A : Type} (c : Call) (answer : Env -> JS.Completion A) : M A :=
  fun env t => (answer env, (t ++ [c])%list).

(** A completion computed inside the process. *)
Definition lift {A : Type} (c : JS.Completion A) : M A := fun _ t => (c, t).

Definition ask : M Env := fun env t => (JS.Return env, t).

(** Running a computation from an empty trace. *)
Definition run {A : Type} (m : M A) (env : Env) : JS.Completion A * Trace := m env [].

End IO.

Declare Scope io_scope.
Delimit Scope io_scope with io.
Notation "x <- c ;; k" := (IO.bind c (fun x => k))
  (at level 61, c at next level, right associativity) : io_scope.
Notation "c ;; k" := (IO.bind c (fun _ => k))
  (at level 61, right associativity) : io_scope.

(** ** axios, as far as the client uses it *)

Module Axios.
Import IO.
Local Open Scope io_scope.

Record AxiosResponse : Type := mkResponse {
  status : Z;
  data : JS.Value
}.

(** axios's default [validateStatus]: [status >= 200 && status < 300]. *)
Definition validateStatus (status : Z) : bool := (200 <=? status) && (status <? 300).

(** The error of a rejected status; its code is [ERR_BAD_REQUEST] for
    4xx, [ERR_BAD_RESPONSE] for 5xx. *)
Definition AxiosError (status : Z) : JS.Error :=
  JS.mkErrorWithCode "AxiosError"
    ("Request failed with status code " ++ BigInt.toString status)
    (if (400 <=? status) && (status <? 500) then Some "ERR_BAD_REQUEST"
     else if (500 <=? status) && (status <? 600) then Some "ERR_BAD_RESPONSE"
     else None).

(** [axios.post(url, body, config)]: one request.  The promise rejects
    when the transport fails and when the status is outside 2xx;
    otherwise [data] is the parsed JSON body, or the body text itself
    when it is empty or does not parse. *)
Definition post (url : string) (body : Body) (headers : list (string * string))
    : M AxiosResponse :=
  outcome <- call (Post url body headers)
               (fun env => JS.Return (http_post env url body headers)) ;;
  match outcome with
  | NetworkError e => throw e
  | Response st d =>
      if validateStatus st then ret (mkResponse st d)
      else throw (AxiosError st)
  end.

End Axios.

(** viem's [parseEther] as the client and the handlers call it, with the
    rounding of the environment. *)
Module ViemM.
Import IO.
Local Open Scope io_scope.

Definition parseEther (ether : string) : M Z :=
  env <- ask ;;
  lift (Viem.parseEther (Math_round_Number env) ether).

End ViemM.

(** ** [src/sdk/client.ts] *)

Module KaiaFunSchema.

Record Metadata : Type := mkMetadata {
  name : string;
  symbol : string;
  description : string;
  imageURL : string;
  (* optional *)
  twitter : option string;
  telegram : option string;
  website : option string
}.

Record BuyOptions : Type := mkBuy {
  buy_tokenAddress : Receipt.Hex;
  buy_amount : Z;
  minTokenAmount : option Z
}.

Record SellOptions : Type := mkSell {
  sell_tokenAddress : Receipt.Hex;
  sell_amount : Z;
  minBaseAmount : option Z;
  isOutputKAIA : option bool
}.

Record ListOptions : Type := mkList {
  metadata : Metadata
}.

End KaiaFunSchema.

Module KaiaFunClient.
Import IO Receipt.
Local Open Scope io_scope.

Record Account : Type := mkAccount {
  address : Hex
}.

Record PublicClient : Type := mkPublic {
  public_chain : Chain.Chain
}.

(** [walletClient.chain] is read as [chain?.id], so it may be absent. *)
Record WalletClient : Type := mkWallet {
  chain : option Chain.Chain;
  wallet_account : Account
}.

Record Client : Type := mkClient {
  publicClient : PublicClient;
  walletClient : WalletClient;
  account : Account
}.

Definition API_BASE_URL : string := "https://kaiafun.io/api".

Definition defaultPublicClient : PublicClient := mkPublic Chain.kaiaMainnet.

(** The constructor: absent clients default to the Kaia main net. *)
Definition new (acc : Account) (pc : option PublicClient) (wc : option WalletClient)
    : Client :=
  {| account := acc;
     publicClient := match pc with Some p => p | None => defaultPublicClient end;
     walletClient := match wc with
                     | Some w => w
                     | None => mkWallet (Some Chain.kaiaMainnet) acc
                     end |}.

Record TradeResult : Type := mkTradeResult {
  trade_receipt : TransactionReceipt;
  tradeEvent : option DecodedEvent
}.

Record ListResult : Type := mkListResult {
  list_receipt : TransactionReceipt;
  listEvent : option DecodedEvent
}.

(** [this.walletClient.chain?.id !== kaiaMainnet.id] *)
Definition chain_differs (this : Client) : bool :=
  match option_map Chain.id (chain (walletClient this)) with
  | Some i => negb (i =? Chain.id Chain.kaiaMainnet)
  | None => true
  end.

(** [getEventFromReceipt] with the environment's [decodeEventLog]. *)
Definition getEventFromReceipt (receipt : TransactionReceipt) (abi : ABI.Abi)
    (eventName : string) : M (option DecodedEvent) :=
  env <- ask ;;
  ret (Utils.getEventFromReceipt (decodeEventLog env) (Some receipt) abi (Some eventName)).

Section Methods.

(** [KAIAFUN_CORE_ADDRESS] and [WETH_ADDRESS] come from [./constants],
    which is not among the sources. *)
Variable KAIAFUN_CORE_ADDRESS : Hex.
Variable WETH_ADDRESS : Hex.

Definition buy (this : Client) (o : KaiaFunSchema.BuyOptions) : M TradeResult :=
  let tokenAddress := KaiaFunSchema.buy_tokenAddress o in
  let amount := KaiaFunSchema.buy_amount o in
  let minTokenAmount :=
    match KaiaFunSchema.minTokenAmount o with Some m => m | None => 0 end in
  if chain_differs this then throw (JS.new_Error "Unsupported chain")
  else
    let p := {| to := KAIAFUN_CORE_ADDRESS;
                abi := [ABI.buyWithETH];
                functionName := "buyWithETH";
                IO.args := [AddressArg tokenAddress; UintArg minTokenAmount];
                value := Some amount |} in
    hash <- call (WriteContract p) (fun env => writeContract env p) ;;
    receipt <- call (WaitForTransactionReceipt hash)
                 (fun env => waitForTransactionReceipt env hash) ;;
    tradeEvent <- getEventFromReceipt receipt [ABI.TradeEvent] (ABI.name ABI.TradeEvent) ;;
    ret (mkTradeResult receipt tradeEvent).

Definition sell (this : Client) (o : KaiaFunSchema.SellOptions) : M TradeResult :=
  let tokenAddress := KaiaFunSchema.sell_tokenAddress o in
  let amount := KaiaFunSchema.sell_amount o in
  let minBaseAmount :=
    match KaiaFunSchema.minBaseAmount o with Some m => m | None => 0 end in
  let isOutputKAIA :=
    match KaiaFunSchema.isOutputKAIA o with Some b => b | None => true end in
  if chain_differs this then throw (JS.new_Error "Unsupported chain")
  else
    let p := {| to := KAIAFUN_CORE_ADDRESS;
                abi := [ABI.sell];
                functionName := "sell";
                IO.args := [AddressArg tokenAddress; UintArg amount;
                         UintArg minBaseAmount; BoolArg isOutputKAIA];
                value := None |} in
    hash <- call (WriteContract p) (fun env => writeContract env p) ;;
    receipt <- call (WaitForTransactionReceipt hash)
                 (fun env => waitForTransactionReceipt env hash) ;;
    tradeEvent <- getEventFromReceipt receipt [ABI.TradeEvent] (ABI.name ABI.TradeEvent) ;;
    ret (mkTradeResult receipt tradeEvent).

(** The object literal handed to [JSON.stringify] in [list]. *)
Definition metadata_object (metadata : KaiaFunSchema.Metadata) (creator : Hex) (t : Z)
    : JS.Value :=
  JS.Object [ ("name", JS.Str (KaiaFunSchema.name metadata));
              ("symbol", JS.Str (KaiaFunSchema.symbol metadata));
              ("description", JS.Str (KaiaFunSchema.description metadata));
              ("imageURL", JS.Str (KaiaFunSchema.imageURL metadata));
              ("creator", JS.Str (JSString.toLowerCase creator));
              ("t", JS.Number t) ].

Definition list (this : Client) (o : KaiaFunSchema.ListOptions) : M ListResult :=
  let metadata := KaiaFunSchema.metadata o in
  let signer := address (wallet_account (walletClient this)) in
  if chain_differs this then throw (JS.new_Error "Unsupported chain")
  else
    (* check if user KAIA (ETH) balance is more then 10 KAIA *)
    balance <- call (GetBalance signer) (fun env => getBalance env signer) ;;
    fee <- ViemM.parseEther "10" ;;
    if balance <? fee then throw (JS.new_Error "Insufficient balance")
    else
      t <- call DateNow (fun env => JS.Return (Date_now env)) ;;
      let serialized :=
        match JSON.stringify (metadata_object metadata signer t) with
        | Some s => JS.Str s
        | None => JS.Undefined
        end in
      response <- Axios.post (API_BASE_URL ++ "/token/metadata")
                    (JsonBody (JS.Object [("metadata", serialized)])) [] ;;
      metadataHash <- lift (JS.get_property (Axios.data response) "hash") ;;
      value <- ViemM.parseEther "10" ;;
      let p := {| to := KAIAFUN_CORE_ADDRESS;
                  abi := [ABI.listWithETH];
                  functionName := "listWithETH";
                  IO.args := [AddressArg WETH_ADDRESS;
                           StringArg (KaiaFunSchema.name metadata);
                           StringArg (KaiaFunSchema.symbol metadata);
                           ValueArg metadataHash];
                  value := Some value |} in
      hash <- call (WriteContract p) (fun env => writeContract env p) ;;
      receipt <- call (WaitForTransactionReceipt hash)
                   (fun env => waitForTransactionReceipt env hash) ;;
      listEvent <- getEventFromReceipt receipt [ABI.ListEvent] (ABI.name ABI.ListEvent) ;;
      ret (mkListResult receipt listEvent).

End Methods.

(** [uploadImage]: the [FormData] it builds is never sent; the file
    itself is the request body. *)
Definition uploadImage (this : Client) (file : File) : M JS.Value :=
  try_catch
    (response <- Axios.post (API_BASE_URL ++ "/upload?filename=" ++ file_name file)
                   (FileBody file) [("Content-Type", file_type file)] ;;
     lift (JS.get_property (Axios.data response) "url"))
    (fun error =>
       call (ConsoleError "Error:") (fun _ => JS.Return tt) ;;
       ret JS.Null).

End KaiaFunClient.

(** ** [src/kaiafun-mcp-server.ts]: schemas and the handlers without a client *)

Module Server.
Import IO.
Local Open Scope io_scope.

(** The content a tool call answers with: one text block. *)
Record ToolResult : Type := mkText {
  text : string
}.

Definition is_hex_digit (c : ascii) : bool :=
  let n := nat_of_ascii c in
  ((48 <=? n) && (n <=? 57) || (97 <=? n) && (n <=? 102) || (65 <=? n) && (n <=? 70))%nat.

(** The test against [^0x[a-fA-F0-9]{40}$]: the two characters [0x]
    followed by exactly forty hexadecimal digits. *)
Definition is_token_address (s : string) : bool :=
  match JSString.chars s with
  | c0 :: c1 :: r =>
      Ascii.eqb c0 "0" && Ascii.eqb c1 "x"
      && (List.length r =? 40)%nat && forallb is_hex_digit r
  | _ => false
  end.

Section Handlers.

(** The message zod renders for the arguments it rejects. *)
Variable ZodError_message : JS.Value -> string.

Definition ZodError (args : JS.Value) : JS.Error :=
  JS.mkError "ZodError" (ZodError_message args).

(** Parsing with [z.object({ key: z.string()... })]: the arguments must
    be an object whose [key] is a string passing [check]. *)
Definition parse_string_field (key : string) (check : string -> bool) (args : JS.Value)
    : JS.Completion string :=
  match args with
  | JS.Object fields =>
      match JS.lookup_field key fields with
      | Some (JS.Str s) => if check s then JS.Return s else JS.Throw (ZodError args)
      | _ => JS.Throw (ZodError args)
      end
  | _ => JS.Throw (ZodError args)
  end.

(** [z.string().min(1, ...)] *)
Definition min1 (s : string) : bool := (1 <=? String.length s)%nat.

(** [schemas.toolInputs.getTokenUrl], [.parseEther] and [.formatEther]. *)
Definition getTokenUrl_parse : JS.Value -> JS.Completion string :=
  parse_string_field "tokenAddress" is_token_address.
Definition parseEther_parse : JS.Value -> JS.Completion string :=
  parse_string_field "amount" min1.
Definition formatEther_parse : JS.Value -> JS.Completion string :=
  parse_string_field "amount" min1.

Definition formatError (error : JS.Error) : M string :=
  lift (JS.JSON_stringify_error error) ;;
  call (ConsoleError "Full error:") (fun _ => JS.Return tt) ;;
  match JS.code error with
  | Some c =>
      if negb (String.eqb c "") then
        ret ("Error (" ++ c ++ "): "
               ++ (if String.eqb (JS.message error) "" then "Unknown error"
                   else JS.message error))
      else ret (if String.eqb (JS.message error) "" then "An unknown error occurred"
                else JS.message error)
  | None =>
      ret (if String.eqb (JS.message error) "" then "An unknown error occurred"
           else JS.message error)
  end.

(** The [catch] shared by the handlers: log, then answer with the
    formatted error. *)
Definition on_error (log_label prefix : string) (error : JS.Error) : M ToolResult :=
  call (ConsoleError log_label) (fun _ => JS.Return tt) ;;
  msg <- formatError error ;;
  ret (mkText (prefix ++ msg)).

Definition token_url (tokenAddress : string) : string :=
  "https://kaiafun.io/token/" ++ JSString.toLowerCase tokenAddress.

Definition get_token_url (args : JS.Value) : M ToolResult :=
  try_catch
    (tokenAddress <- lift (getTokenUrl_parse args) ;;
     (* Construct the KaiaFun detail page URL directly *)
     let url := token_url tokenAddress in
     ret (mkText ("Token URL: " ++ url)))
    (on_error "Error getting token URL:" "Error getting token URL: ").

Definition parse_ether (args : JS.Value) : M ToolResult :=
  try_catch
    (amount <- lift (parseEther_parse args) ;;
     parsedAmount <- ViemM.parseEther amount ;;
     ret (mkText (amount ++ " KAIA = " ++ BigInt.toString parsedAmount ++ " wei")))
    (on_error "Error parsing ether:" "Error parsing ether: ").

Definition format_ether (args : JS.Value) : M ToolResult :=
  try_catch
    (amount <- lift (formatEther_parse args) ;;
     wei <- lift (BigInt.of_string amount) ;;
     let formattedAmount := Viem.formatEther wei in
     ret (mkText (amount ++ " wei = " ++ formattedAmount ++ " KAIA")))
    (on_error "Error formatting ether:" "Error formatting ether: ").

(** *** The trading handlers *)

(** The server object carries the client, set once at start-up. *)
Record KaiaFunServer : Type := mkServer {
  kaiaFunClient : option KaiaFunClient.Client
}.

(** [if (!server.kaiaFunClient) throw new Error(...)] *)
Definition require_client (server : KaiaFunServer) : M KaiaFunClient.Client :=
  match kaiaFunClient server with
  | Some client => ret client
  | None => throw (JS.new_Error "KaiaFun client not initialized")
  end.

(** A required [z.string()] key with its check, and an optional
    [z.string().optional()] or [z.boolean().optional()] key: [None] is a
    validation failure, [Some None] an absent key. *)
Definition required_string (key : string) (check : string -> bool)
    (fields : list (string * JS.Value)) : option string :=
  match JS.lookup_field key fields with
  | Some (JS.Str s) => if check s then Some s else None
  | _ => None
  end.

Definition optional_string (key : string) (fields : list (string * JS.Value))
    : option (option string) :=
  match JS.lookup_field key fields with
  | None | Some JS.Undefined => Some None
  | Some (JS.Str s) => Some (Some s)
  | Some _ => None
  end.

Definition optional_boolean (key : string) (fields : list (string * JS.Value))
    : option (option bool) :=
  match JS.lookup_field key fields with
  | None | Some JS.Undefined => Some None
  | Some (JS.Bool b) => Some (Some b)
  | Some _ => None
  end.

(** What [z.string().url()] accepts is decided by the URL parser of the
    runtime. *)
Variable is_url : string -> bool.

(** [KAIAFUN_CORE_ADDRESS] and [WETH_ADDRESS], as in the client. *)
Variable KAIAFUN_CORE_ADDRESS : Receipt.Hex.
Variable WETH_ADDRESS : Receipt.Hex.

(** [schemas.toolInputs.listMemecoin] *)
Definition listMemecoin_parse (args : JS.Value) : JS.Completion KaiaFunSchema.Metadata :=
  match args with
  | JS.Object fields =>
      match required_string "name" min1 fields,
            required_string "symbol" min1 fields,
            required_string "description" min1 fields,
            required_string "imageURL" is_url fields,
            optional_string "twitter" fields,
            optional_string "telegram" fields,
            optional_string "website" fields with
      | Some name, Some symbol, Some description, Some imageURL,
        Some twitter, Some telegram, Some website =>
          JS.Return (KaiaFunSchema.mkMetadata name symbol description imageURL
                       twitter telegram website)
      | _, _, _, _, _, _, _ => JS.Throw (ZodError args)
      end
  | _ => JS.Throw (ZodError args)
  end.

(** [schemas.toolInputs.buyMemecoin]: address, amount, minimum. *)
Definition buyMemecoin_parse (args : JS.Value)
    : JS.Completion (string * string * option string) :=
  match args with
  | JS.Object fields =>
      match required_string "tokenAddress" is_token_address fields,
            required_string "amount" min1 fields,
            optional_string "minTokenAmount" fields with
      | Some tokenAddress, Some amount, Some minTokenAmount =>
          JS.Return (tokenAddress, amount, minTokenAmount)
      | _, _, _ => JS.Throw (ZodError args)
      end
  | _ => JS.Throw (ZodError args)
  end.

(** [schemas.toolInputs.sellMemecoin]: address, amount, minimum, flag. *)
Definition sellMemecoin_parse (args : JS.Value)
    : JS.Completion (string * string * option string * option bool) :=
  match args with
  | JS.Object fields =>
      match required_string "tokenAddress" is_token_address fields,
            required_string "amount" min1 fields,
            optional_string "minBaseAmount" fields,
            optional_boolean "isOutputKAIA" fields with
      | Some tokenAddress, Some amount, Some minBaseAmount, Some isOutputKAIA =>
          JS.Return (tokenAddress, amount, minBaseAmount, isOutputKAIA)
      | _, _, _, _ => JS.Throw (ZodError args)
      end
  | _ => JS.Throw (ZodError args)
  end.

(** [min ? parseEther(min) : 0n]: the empty string is falsy. *)
Definition parse_minimum (min : option string) : M Z :=
  match min with
  | Some m => if String.eqb m "" then ret 0 else ViemM.parseEther m
  | None => ret 0
  end.

(** A decoded argument as a template literal prints it, and whether it
    is truthy. *)
Definition display (v : Receipt.ArgValue) : string :=
  match v with
  | Receipt.AddressValue a => a
  | Receipt.UintValue n => BigInt.toString n
  | Receipt.StringValue s => s
  end.

Definition arg_truthy (v : Receipt.ArgValue) : bool :=
  match v with
  | Receipt.AddressValue a => negb (String.eqb a "")
  | Receipt.UintValue n => negb (n =? 0)
  | Receipt.StringValue s => negb (String.eqb s "")
  end.

Fixpoint lookup_arg (k : string) (l : list (string * Receipt.ArgValue))
    : option Receipt.ArgValue :=
  match l with
  | [] => None
  | (k', v) :: rest => if String.eqb k k' then Some v else lookup_arg k rest
  end.

(** [result.listEvent?.args.tokenAddress || 'Unknown'] *)
Definition listed_token_address (listEvent : option Receipt.DecodedEvent) : string :=
  match listEvent with
  | Some ev =>
      match lookup_arg "tokenAddress" (Receipt.args ev) with
      | Some v => if arg_truthy v then display v else "Unknown"
      | None => "Unknown"
      end
  | None => "Unknown"
  end.

Definition list_memecoin (server : KaiaFunServer) (args : JS.Value) : M ToolResult :=
  try_catch
    (metadata <- lift (listMemecoin_parse args) ;;
     client <- require_client server ;;
     result <- KaiaFunClient.list KAIAFUN_CORE_ADDRESS WETH_ADDRESS client
                 (KaiaFunSchema.mkList metadata) ;;
     let tokenAddress := listed_token_address (KaiaFunClient.listEvent result) in
     ret (mkText ("Successfully listed new memecoin!" ++ JSString.nl
                  ++ "Name: " ++ KaiaFunSchema.name metadata ++ JSString.nl
                  ++ "Symbol: " ++ KaiaFunSchema.symbol metadata ++ JSString.nl
                  ++ "Token Address: " ++ tokenAddress ++ JSString.nl
                  ++ "Transaction Hash: "
                  ++ Receipt.transactionHash (KaiaFunClient.list_receipt result))))
    (on_error "Error listing memecoin:" "Error listing memecoin: ").

Definition buy_memecoin (server : KaiaFunServer) (args : JS.Value) : M ToolResult :=
  try_catch
    (parsed <- lift (buyMemecoin_parse args) ;;
     let '(tokenAddress, amount, minTokenAmount) := parsed in
     client <- require_client server ;;
     parsedAmount <- ViemM.parseEther amount ;;
     parsedMinTokenAmount <- parse_minimum minTokenAmount ;;
     result <- KaiaFunClient.buy KAIAFUN_CORE_ADDRESS client
                 (KaiaFunSchema.mkBuy tokenAddress parsedAmount
                    (Some parsedMinTokenAmount)) ;;
     ret (mkText ("Successfully bought memecoin!" ++ JSString.nl
                  ++ "Token Address: " ++ tokenAddress ++ JSString.nl
                  ++ "Amount Spent: " ++ amount ++ " KAIA" ++ JSString.nl
                  ++ "Transaction Hash: "
                  ++ Receipt.transactionHash (KaiaFunClient.trade_receipt result))))
    (on_error "Error buying memecoin:" "Error buying memecoin: ").

Definition sell_memecoin (server : KaiaFunServer) (args : JS.Value) : M ToolResult :=
  try_catch
    (parsed <- lift (sellMemecoin_parse args) ;;
     let '(tokenAddress, amount, minBaseAmount, isOutputKAIA) := parsed in
     client <- require_client server ;;
     parsedAmount <- ViemM.parseEther amount ;;
     parsedMinBaseAmount <- parse_minimum minBaseAmount ;;
     result <- KaiaFunClient.sell KAIAFUN_CORE_ADDRESS client
                 (KaiaFunSchema.mkSell tokenAddress parsedAmount
                    (Some parsedMinBaseAmount) isOutputKAIA) ;;
     ret (mkText ("Successfully sold memecoin!" ++ JSString.nl
                  ++ "Token Address: " ++ tokenAddress ++ JSString.nl
                  ++ "Amount Sold: " ++ amount ++ " tokens" ++ JSString.nl
                  ++ "Transaction Hash: "
                  ++ Receipt.transactionHash (KaiaFunClient.trade_receipt result))))
    (on_error "Error selling memecoin:" "Error selling memecoin: ").

End Handlers.

End Server.

(** ** Digit strings and decimal numerals *)

Module Digits.
Import Decimal.

(** The digit a character stands for, put in front of a decimal numeral. *)
Definition digit_uint (c : ascii) (d : uint) : uint :=
  match (nat_of_ascii c - 48)%nat with
  | 0%nat => D0 d | 1%nat => D1 d | 2%nat => D2 d | 3%nat => D3 d | 4%nat => D4 d
  | 5%nat => D5 d | 6%nat => D6 d | 7%nat => D7 d | 8%nat => D8 d | _ => D9 d
  end.

(** A digit string as a decimal numeral of the standard library. *)
Fixpoint uint_of_digits (l : list ascii) : uint :=
  match l with
  | [] => Nil
  | c :: r => digit_uint c (uint_of_digits r)
  end.

Definition digit_chars : list ascii :=
  ["0"; "1"; "2"; "3"; "4"; "5"; "6"; "7"; "8"; "9"]%char.

(** A digit string without its leading zeros, ["0"] if nothing is left:
    what printing its value gives. *)
Definition canon (l : list ascii) : list ascii :=
  match JSString.drop_zeros l with
  | [] => ["0"%char]
  | l' => l'
  end.

(** A fraction filled up with zeros to the 18 decimals of the unit. *)
Definition pad18 (f : list ascii) : list ascii :=
  (f ++ repeat "0"%char (18 - List.length f))%list.

End Digits.

(** ** Properties under test, stated as predicates on runs *)

Module Props.
Import IO.

Definition is_write (c : Call) : bool :=
  match c with WriteContract _ => true | _ => false end.
Definition is_post (c : Call) : bool :=
  match c with Post _ _ _ => true | _ => false end.

(** No transaction was submitted / no HTTP POST was made in a trace. *)
Definition no_submission (t : Trace) : bool := negb (existsb is_write t).
Definition no_post (t : Trace) : bool := negb (existsb is_post t).

(** [null] or [undefined]: the failure signal of [uploadImage]. *)
Definition is_none (v : JS.Value) : bool :=
  match v with
  | JS.Null | JS.Undefined => true
  | _ => false
  end.

(** The computation is rejected with an error before any submission. *)
Definition rejected_before_submission {A : Type} (m : M A) (env : Env) : Prop :=
  exists e t, run m env = (JS.Throw e, t) /\ no_submission t = true.

(** A response body that does not carry a string [url]. *)
Definition lacks_url_string (data : JS.Value) : bool :=
  match data with
  | JS.Object fields =>
      match JS.lookup_field "url" fields with
      | Some (JS.Str _) => false
      | _ => true
      end
  | _ => true
  end.

Definition is_upper (c : ascii) : bool :=
  let n := nat_of_ascii c in ((65 <=? n) && (n <=? 90))%nat.

(** [c'] is [c] in lower case: the letter 32 places on for an upper-case
    ASCII letter, [c] itself for any other character. *)
Definition lowered (c c' : ascii) : Prop :=
  if is_upper c then nat_of_ascii c' = (nat_of_ascii c + 32)%nat else c' = c.

(** Two strings that differ at most in the case of their ASCII letters. *)
Definition same_up_to_case (a b : string) : Prop :=
  Forall2 (fun c c' => c = c' \/ lowered c c' \/ lowered c' c)
    (JSString.chars a) (JSString.chars b).

(** A non-negative decimal amount with at most 18 fraction digits. *)
Definition is_representable_amount (s : string) : bool :=
  Viem.is_decimal_number s
  && negb (JSString.startsWith "-" s)
  && (String.length (nth 1 (JSString.split "." s) "") <=? 18)%nat.

Definition canonical_integer (i : list ascii) : bool :=
  forallb JSString.is_digit i
  && match i with
     | [] => false
     | c :: r => negb (Ascii.eqb c "0") || match r with [] => true | _ => false end
     end.

Definition canonical_fraction (f : list ascii) : bool :=
  forallb JSString.is_digit f
  && (List.length f <=? 18)%nat
  && match rev f with
     | [] => false
     | c :: _ => negb (Ascii.eqb c "0")
     end.

(** The canonical writing of an amount: an integer part without
    superfluous leading zeros and, if there is a point, a non-empty
    fraction of at most 18 digits that does not end in zero. *)
Definition is_canonical_amount (s : string) : bool :=
  match JSString.split_chars "." (JSString.chars s) with
  | [i] => canonical_integer i
  | [i; f] => canonical_integer i && canonical_fraction f
  | _ => false
  end.

End Props.

(** ** Sample collaborators for concrete runs *)

Module Fixtures.
Import IO Receipt.

(** A decoder that reads the event name off the first topic and accepts
    it when the ABI lists an item of that name. *)
Definition decode : Decoder := fun abi data topics =>
  match topics with
  | t :: _ =>
      if existsb (fun item => String.eqb (ABI.name item) t) abi
      then JS.Return (mkDecoded t [("data", StringValue data)])
      else JS.Throw (JS.mkError "AbiEventSignatureNotFoundError" t)
  | [] => JS.Throw (JS.mkError "AbiEventSignatureEmptyTopicsError" "")
  end.

Definition trade_log : Log := mkLog "0xcore" ["Trade"; "0xaa"] "0x01" 0.
Definition list_log : Log := mkLog "0xcore" ["List"; "0xbb"] "0x02" 1.
Definition other_log : Log := mkLog "0xother" ["Transfer"] "0x03" 2.
Definition trade_log_elsewhere : Log := mkLog "0xelse" ["Trade"; "0xaa"] "0x01" 7.

Definition receipt : TransactionReceipt :=
  mkReceipt "success" "0xhash" [other_log; list_log; trade_log].
Definition receipt_same_content : TransactionReceipt :=
  mkReceipt "success" "0xhash2"
    [other_log; list_log; trade_log_elsewhere].

Definition signer : KaiaFunClient.Account :=
  KaiaFunClient.mkAccount "0xAbCdEf0123456789aBcDeF0123456789abcdef01".

(** A client as the server builds it, on the Kaia main net. *)
Definition kaia_client : KaiaFunClient.Client := KaiaFunClient.new signer None None.

Definition other_chain : Chain.Chain :=
  Chain.mkChain 1 "Ethereum" (Chain.mkCurrency 18 "Ether" "ETH") [] "".

Definition client_on (c : option Chain.Chain) : KaiaFunClient.Client :=
  KaiaFunClient.new signer None (Some (KaiaFunClient.mkWallet c signer)).

(** An environment where the signer holds [balance], every POST is
    answered by [outcome], and transactions are mined into [receipt]. *)
Definition env (balance : Z) (outcome : HttpOutcome) : Env := {|
  getBalance := fun _ => JS.Return balance;
  http_post := fun _ _ _ => outcome;
  writeContract := fun _ => JS.Return "0xhash";
  waitForTransactionReceipt := fun _ => JS.Return receipt;
  Date_now := 1700000000000;
  decodeEventLog := decode;
  Math_round_Number := fun _ => 0
|}.

Definition ok_hash : HttpOutcome :=
  Response 200 (JS.Object [("hash", JS.Str "Qm123")]).

Definition foo_metadata : KaiaFunSchema.Metadata :=
  KaiaFunSchema.mkMetadata "Foo" "FOO" "d" "https://x/y.png" None None None.

Definition foo_metadata_with_links : KaiaFunSchema.Metadata :=
  KaiaFunSchema.mkMetadata "Foo" "FOO" "d" "https://x/y.png"
    (Some "@foo") (Some "t.me/foo") (Some "https://foo.example").

Definition png : File := mkFile "a.png" "image/png" [].

Definition core_address : Hex := "0xC0RE".
Definition weth_address : Hex := "0xWETH".

Definition zod_message : JS.Value -> string := fun _ => "invalid arguments".

(** A URL check that asks for a scheme separator. *)
Definition has_scheme (s : string) : bool :=
  match index 0 "://" s with Some _ => true | None => false end.

Definition server : Server.KaiaFunServer := Server.mkServer (Some kaia_client).

Definition list_args (links : list (string * JS.Value)) : JS.Value :=
  JS.Object ([ ("name", JS.Str "Foo"); ("symbol", JS.Str "FOO");
               ("description", JS.Str "d");
               ("imageURL", JS.Str "https://x/y.png") ] ++ links)%list.

Definition some_links : list (string * JS.Value) :=
  [ ("twitter", JS.Str "@foo"); ("telegram", JS.Str "t.me/foo");
    ("website", JS.Str "https://foo.example") ].

Definition token : string := "0xAbCdEf0123456789aBcDeF0123456789abcdef01".

End Fixtures.

(** * Event extraction *)

Section EventExtraction.
Import Receipt.

(** One log decoded, or [undefined]. *)
Variable decode1 : Log -> option DecodedEvent.

Lemma name_matches_some (target : string) (d : DecodedEvent) :
  Utils.name_matches (Some target) (Some d) = String.eqb (eventName d) target.
Proof. reflexivity. Qed.

Lemma name_matches_undefined_log (target : string) :
  Utils.name_matches (Some target) None = false.
Proof. reflexivity. Qed.

Lemma name_matches_undefined_target (log : option DecodedEvent) :
  Utils.name_matches None log = match log with None => true | Some _ => false end.
Proof. destruct log; reflexivity. Qed.

(** The [map]/[find] chain of the source walks the logs exactly as the
    contract says. *)
Lemma find_map_first_event (target : string) (ls : list Log) :
  match find (Utils.name_matches (Some target)) (map decode1 ls) with
  | Some found => found
  | None => None
  end = Utils.first_event_named decode1 target ls.
Proof.
  induction ls as [|l rest IH]; simpl; [reflexivity|].
  destruct (decode1 l) as [d|] eqn:Hd.
  - rewrite name_matches_some.
    destruct (String.eqb (eventName d) target); [reflexivity | exact IH].
  - rewrite name_matches_undefined_log. exact IH.
Qed.

Lemma first_event_none_decodes (target : string) (ls : list Log) :
  (forall l, In l ls -> decode1 l = None) ->
  Utils.first_event_named decode1 target ls = None.
Proof.
  induction ls as [|l rest IH]; simpl; intros H; [reflexivity|].
  rewrite (H l (or_introl eq_refl)). apply IH. intros l' Hl'. apply H. now right.
Qed.

Lemma first_event_skips_prefix (target : string) (pre post : list Log)
    (l : Log) (d : DecodedEvent) :
  (forall l', In l' pre ->
     forall d', decode1 l' = Some d' -> eventName d' <> target) ->
  decode1 l = Some d ->
  eventName d = target ->
  Utils.first_event_named decode1 target (pre ++ l :: post)%list = Some d.
Proof.
  intros Hpre Hd Hname.
  induction pre as [|p pre IH]; simpl.
  - rewrite Hd. apply String.eqb_eq in Hname. now rewrite Hname.
  - destruct (decode1 p) as [d'|] eqn:Hp.
    + assert (Hne : eventName d' <> target) by (apply (Hpre p); [now left | exact Hp]).
      apply String.eqb_neq in Hne. rewrite Hne.
      apply IH. intros l' Hl'. apply Hpre. now right.
    + apply IH. intros l' Hl'. apply Hpre. now right.
Qed.

Lemma first_event_none_named (target : string) (ls : list Log) :
  (forall l, In l ls -> forall d, decode1 l = Some d -> eventName d <> target) ->
  Utils.first_event_named decode1 target ls = None.
Proof.
  induction ls as [|l rest IH]; simpl; intros H; [reflexivity|].
  destruct (decode1 l) as [d|] eqn:Hd.
  - assert (Hne : eventName d <> target) by (apply (H l); [now left | exact Hd]).
    apply String.eqb_neq in Hne. rewrite Hne.
    apply IH. intros l' Hl'. apply H. now right.
  - apply IH. intros l' Hl'. apply H. now right.
Qed.

Lemma first_event_found (target : string) (ls : list Log) (d : DecodedEvent) :
  Utils.first_event_named decode1 target ls = Some d ->
  exists pre l post,
    ls = (pre ++ l :: post)%list
    /\ (forall l', In l' pre ->
          forall d', decode1 l' = Some d' -> eventName d' <> target)
    /\ decode1 l = Some d
    /\ eventName d = target.
Proof.
  induction ls as [|l rest IH]; simpl; [discriminate|].
  destruct (decode1 l) as [d0|] eqn:Hd.
  - destruct (String.eqb_spec (eventName d0) target) as [Hn|Hn].
    + intros H. injection H as <-. exists [], l, rest.
      split; [reflexivity|]. split; [intros l' []|]. now split.
    + intros H. destruct (IH H) as (pre & l1 & post & -> & Hpre & Hd1 & Hn1).
      exists (l :: pre), l1, post. split; [reflexivity|]. split; [|now split].
      intros l' [<-|Hl'] d' Hd'; [|now apply (Hpre l')].
      rewrite Hd in Hd'. now injection Hd' as <-.
  - intros H. destruct (IH H) as (pre & l1 & post & -> & Hpre & Hd1 & Hn1).
    exists (l :: pre), l1, post. split; [reflexivity|]. split; [|now split].
    intros l' [<-|Hl'] d' Hd'; [|now apply (Hpre l')].
    rewrite Hd in Hd'. discriminate Hd'.
Qed.

Lemma find_undefined_target (ls : list (option DecodedEvent)) :
  match find (Utils.name_matches None) ls with
  | Some found => found
  | None => None
  end = None.
Proof.
  induction ls as [|x rest IH]; simpl; [reflexivity|].
  rewrite name_matches_undefined_target. destruct x; [exact IH | reflexivity].
Qed.

End EventExtraction.

(** C3 — event extraction decodes each log, in log order, against the
    whole shape set, skips a log whose decoding throws, and returns the
    first decoded entry whose event name is the target; the result is
    none for an absent receipt, for a receipt without logs, when
    decoding throws on every log, and when the only decodable log
    carries another name; among several decodable logs the first one
    with the requested name wins, and nothing else is ever returned. *)
Theorem getEventFromReceipt_first_match :
  forall (decode : Receipt.Decoder) (abi : ABI.Abi) (target : string),
    let decoded := fun l => decode abi (Receipt.data l) (Receipt.topics l) in
    let skipped := fun l =>
      (exists e, decoded l = JS.Throw e)
      \/ (exists d, decoded l = JS.Return d /\ Receipt.eventName d <> target) in
    let extract := fun r => Utils.getEventFromReceipt decode r abi (Some target) in
    extract None = None
    /\ (forall r, extract (Some r)
                  = Utils.first_event_named
                      (fun l => match decoded l with
                                | JS.Return d => Some d
                                | JS.Throw _ => None
                                end)
                      target (Receipt.logs r))
    /\ (forall r, Receipt.logs r = [] -> extract (Some r) = None)
    /\ (forall r, (forall l, In l (Receipt.logs r) -> exists e, decoded l = JS.Throw e) ->
                  extract (Some r) = None)
    /\ (forall r l d, Receipt.logs r = [l] -> decoded l = JS.Return d ->
                      Receipt.eventName d = target -> extract (Some r) = Some d)
    /\ (forall r l d, Receipt.logs r = [l] -> decoded l = JS.Return d ->
                      Receipt.eventName d <> target -> extract (Some r) = None)
    /\ (forall r pre l post d,
          Receipt.logs r = (pre ++ l :: post)%list ->
          (forall l', In l' pre -> skipped l') ->
          decoded l = JS.Return d ->
          Receipt.eventName d = target ->
          extract (Some r) = Some d)
    /\ (forall r, (forall l, In l (Receipt.logs r) -> skipped l) ->
                  extract (Some r) = None)
    /\ (forall r d,
          extract (Some r) = Some d ->
          exists pre l post,
            Receipt.logs r = (pre ++ l :: post)%list
            /\ (forall l', In l' pre -> skipped l')
            /\ decoded l = JS.Return d
            /\ Receipt.eventName d = target).
Proof.
  intros decode abi target decoded skipped extract.
  set (decode1 := Utils.decode_or_undefined decode abi).
  assert (Hspec : forall r, extract (Some r)
                    = Utils.first_event_named decode1 target (Receipt.logs r)).
  { intros r. unfold extract, Utils.getEventFromReceipt.
    apply find_map_first_event. }
  assert (Hone : forall l, decode1 l = JS.try_or_undefined (decoded l)) by reflexivity.
  assert (Hskip : forall l, skipped l ->
            forall d, decode1 l = Some d -> Receipt.eventName d <> target).
  { intros l [[e He]|[d' [Hd' Hn]]] d; rewrite Hone.
    - rewrite He. discriminate.
    - rewrite Hd'. intros H. injection H as <-. exact Hn. }
  assert (Hback : forall l,
            (forall d, decode1 l = Some d -> Receipt.eventName d <> target) ->
            skipped l).
  { intros l H. unfold skipped. rewrite Hone in H.
    destruct (decoded l) as [d|e]; [right | left; now exists e].
    exists d. split; [reflexivity | now apply H]. }
  split; [reflexivity|].
  split; [exact Hspec|].
  split; [intros r Hr; rewrite Hspec, Hr; reflexivity|].
  split.
  { intros r Hr. rewrite Hspec. apply first_event_none_decodes.
    intros l Hl. destruct (Hr l Hl) as [e He]. rewrite Hone, He. reflexivity. }
  split.
  { intros r l d Hr Hd Hn. rewrite Hspec, Hr. simpl. rewrite Hone, Hd. simpl.
    apply String.eqb_eq in Hn. now rewrite Hn. }
  split.
  { intros r l d Hr Hd Hn. rewrite Hspec, Hr. simpl. rewrite Hone, Hd. simpl.
    apply String.eqb_neq in Hn. now rewrite Hn. }
  split.
  { intros r pre l post d Hr Hpre Hd Hn. rewrite Hspec, Hr.
    apply first_event_skips_prefix; [|now rewrite Hone, Hd|exact Hn].
    intros l' Hl'. apply Hskip. now apply Hpre. }
  split.
  { intros r Hr. rewrite Hspec. apply first_event_none_named.
    intros l Hl. apply Hskip. now apply Hr. }
  intros r d Hr. rewrite Hspec in Hr.
  destruct (first_event_found decode1 target _ d Hr) as (pre & l & post & Hl & Hpre & Hd & Hn).
  exists pre, l, post. split; [exact Hl|]. split.
  - intros l' Hl'. apply Hback. now apply Hpre.
  - split; [|exact Hn]. rewrite Hone in Hd.
    destruct (decoded l) as [d0|e]; [|discriminate Hd]. simpl in Hd. now injection Hd as ->.
Qed.

(** The theorem at a receipt whose first log does not decode, whose
    second decodes to [List] and whose third decodes to [Trade]. *)
Lemma getEventFromReceipt_first_match_witness :
  Utils.getEventFromReceipt Fixtures.decode (Some Fixtures.receipt)
    [ABI.TradeEvent; ABI.ListEvent] (Some "Trade")
  = Some (Receipt.mkDecoded "Trade" [("data", Receipt.StringValue "0x01")]).
Proof.
  destruct (getEventFromReceipt_first_match Fixtures.decode
              [ABI.TradeEvent; ABI.ListEvent] "Trade")
    as (_ & _ & _ & _ & _ & _ & H & _).
  apply (H Fixtures.receipt [Fixtures.other_log; Fixtures.list_log]
           Fixtures.trade_log []).
  - reflexivity.
  - intros l' [<-|[<-|[]]].
    + left. eexists. reflexivity.
    + right. eexists. split; [reflexivity | discriminate].
  - reflexivity.
  - reflexivity.
Defined.

(** With an [undefined] event name nothing is ever returned: the only
    entries [find] can stop at are the [undefined] ones. *)
Lemma getEventFromReceipt_undefined_name :
  forall decode r abi, Utils.getEventFromReceipt decode r abi None = None.
Proof.
  intros decode [r|] abi; [|reflexivity].
  unfold Utils.getEventFromReceipt. apply find_undefined_target.
Qed.

(** C8 — event extraction is a function of the logs alone: two receipts
    with the same log sequence give the same result for the same shapes
    and target name, whatever else differs; indeed only the [data] and
    [topics] of each log, in order, matter. *)
Theorem getEventFromReceipt_deterministic :
  forall (decode : Receipt.Decoder) (abi : ABI.Abi) (target : option string)
         (r1 r2 : Receipt.TransactionReceipt),
    (Receipt.logs r1 = Receipt.logs r2 ->
     Utils.getEventFromReceipt decode (Some r1) abi target
     = Utils.getEventFromReceipt decode (Some r2) abi target)
    /\ (map Utils.log_content (Receipt.logs r1)
        = map Utils.log_content (Receipt.logs r2) ->
        Utils.getEventFromReceipt decode (Some r1) abi target
        = Utils.getEventFromReceipt decode (Some r2) abi target).
Proof.
  intros decode abi target r1 r2.
  assert (Hfactor : forall ls,
             map (Utils.decode_or_undefined decode abi) ls
             = map (fun c => JS.try_or_undefined (decode abi (fst c) (snd c)))
                   (map Utils.log_content ls)).
  { intros ls. rewrite map_map. reflexivity. }
  assert (Hcontent : map Utils.log_content (Receipt.logs r1)
                     = map Utils.log_content (Receipt.logs r2) ->
                     Utils.getEventFromReceipt decode (Some r1) abi target
                     = Utils.getEventFromReceipt decode (Some r2) abi target).
  { intros H. unfold Utils.getEventFromReceipt. rewrite !Hfactor, H. reflexivity. }
  split; [|exact Hcontent].
  intros H. apply Hcontent. now rewrite H.
Qed.

(** Two receipts with different hashes whose logs differ in emitting
    address and index but not in [data] and [topics]. *)
Lemma getEventFromReceipt_deterministic_witness :
  Utils.getEventFromReceipt Fixtures.decode (Some Fixtures.receipt)
    [ABI.TradeEvent] (Some "Trade")
  = Utils.getEventFromReceipt Fixtures.decode (Some Fixtures.receipt_same_content)
      [ABI.TradeEvent] (Some "Trade").
Proof.
  apply (proj2 (getEventFromReceipt_deterministic Fixtures.decode [ABI.TradeEvent]
                  (Some "Trade") Fixtures.receipt Fixtures.receipt_same_content)).
  reflexivity.
Defined.

(** * The trading client *)

Section ClientFacts.
Import IO KaiaFunClient.

Lemma chain_differs_other (this : Client) (c : Chain.Chain) :
  chain (walletClient this) = Some c ->
  Chain.id c <> 8217 ->
  chain_differs this = true.
Proof.
  intros Hc Hid. unfold chain_differs. rewrite Hc. simpl.
  apply negb_true_iff, Z.eqb_neq. exact Hid.
Qed.

Lemma chain_differs_absent (this : Client) :
  chain (walletClient this) = None -> chain_differs this = true.
Proof. intros Hc. unfold chain_differs. now rewrite Hc. Qed.

Lemma chain_differs_kaia (this : Client) (c : Chain.Chain) :
  chain (walletClient this) = Some c ->
  Chain.id c = 8217 ->
  chain_differs this = false.
Proof.
  intros Hc Hid. unfold chain_differs. rewrite Hc. simpl. now rewrite Hid.
Qed.

(** When the guard fires, each operation throws at once and leaves the
    trace as it found it. *)
Lemma guard_stops_everything (core weth : Receipt.Hex) (this : Client) :
  chain_differs this = true ->
  forall bo so lo env t,
    buy core this bo env t = (JS.Throw (JS.new_Error "Unsupported chain"), t)
    /\ sell core this so env t = (JS.Throw (JS.new_Error "Unsupported chain"), t)
    /\ list core weth this lo env t = (JS.Throw (JS.new_Error "Unsupported chain"), t).
Proof.
  intros Hg bo so lo env t. unfold buy, sell, list. rewrite Hg. repeat split.
Qed.

(** The listing fee: [parseEther('10')] is ten units of 10^18. *)
Lemma parseEther_10 (r : string -> Z) :
  Viem.parseEther r "10" = JS.Return (10 * 10 ^ 18).
Proof. reflexivity. Qed.

End ClientFacts.

(** C1 — on a connection whose chain id is not 8217, [buy], [sell] and
    [list] each throw [Unsupported chain] and make no call at all: the
    trace is returned unchanged, so no [writeContract] happened. *)
Theorem mutating_operations_reject_other_chain :
  forall (core weth : Receipt.Hex) (this : KaiaFunClient.Client) (c : Chain.Chain)
         (bo : KaiaFunSchema.BuyOptions) (so : KaiaFunSchema.SellOptions)
         (lo : KaiaFunSchema.ListOptions) (env : IO.Env) (t : IO.Trace),
    KaiaFunClient.chain (KaiaFunClient.walletClient this) = Some c ->
    Chain.id c <> 8217 ->
    KaiaFunClient.buy core this bo env t
      = (JS.Throw (JS.new_Error "Unsupported chain"), t)
    /\ KaiaFunClient.sell core this so env t
       = (JS.Throw (JS.new_Error "Unsupported chain"), t)
    /\ KaiaFunClient.list core weth this lo env t
       = (JS.Throw (JS.new_Error "Unsupported chain"), t).
Proof.
  intros core weth this c bo so lo env t Hc Hid.
  apply guard_stops_everything. now apply chain_differs_other with c.
Qed.

(** A client bound to chain 1, with funds and a working endpoint. *)
Lemma mutating_operations_reject_other_chain_witness :
  IO.run (KaiaFunClient.buy Fixtures.core_address
            (Fixtures.client_on (Some Fixtures.other_chain))
            (KaiaFunSchema.mkBuy "0xaa" 1 None))
         (Fixtures.env (10 ^ 20) Fixtures.ok_hash)
  = (JS.Throw (JS.new_Error "Unsupported chain"), []).
Proof.
  apply (mutating_operations_reject_other_chain
           Fixtures.core_address Fixtures.weth_address
           (Fixtures.client_on (Some Fixtures.other_chain)) Fixtures.other_chain
           (KaiaFunSchema.mkBuy "0xaa" 1 None)
           (KaiaFunSchema.mkSell "0xaa" 1 None None)
           (KaiaFunSchema.mkList Fixtures.foo_metadata)
           (Fixtures.env (10 ^ 20) Fixtures.ok_hash) []).
  - reflexivity.
  - vm_compute. discriminate.
Defined.

(** C9 — when the wallet client has no chain at all, [chain?.id] is
    [undefined], which differs from 8217: [buy], [sell] and [list] throw
    [Unsupported chain] before any call, as for a wrong chain. *)
Theorem mutating_operations_reject_absent_chain :
  forall (core weth : Receipt.Hex) (this : KaiaFunClient.Client)
         (bo : KaiaFunSchema.BuyOptions) (so : KaiaFunSchema.SellOptions)
         (lo : KaiaFunSchema.ListOptions) (env : IO.Env) (t : IO.Trace),
    KaiaFunClient.chain (KaiaFunClient.walletClient this) = None ->
    KaiaFunClient.buy core this bo env t
      = (JS.Throw (JS.new_Error "Unsupported chain"), t)
    /\ KaiaFunClient.sell core this so env t
       = (JS.Throw (JS.new_Error "Unsupported chain"), t)
    /\ KaiaFunClient.list core weth this lo env t
       = (JS.Throw (JS.new_Error "Unsupported chain"), t).
Proof.
  intros core weth this bo so lo env t Hc.
  apply guard_stops_everything. now apply chain_differs_absent.
Qed.

Lemma mutating_operations_reject_absent_chain_witness :
  IO.run (KaiaFunClient.list Fixtures.core_address Fixtures.weth_address
            (Fixtures.client_on None)
            (KaiaFunSchema.mkList Fixtures.foo_metadata))
         (Fixtures.env (10 ^ 20) Fixtures.ok_hash)
  = (JS.Throw (JS.new_Error "Unsupported chain"), []).
Proof.
  apply (mutating_operations_reject_absent_chain
           Fixtures.core_address Fixtures.weth_address
           (Fixtures.client_on None)
           (KaiaFunSchema.mkBuy "0xaa" 1 None)
           (KaiaFunSchema.mkSell "0xaa" 1 None None)
           (KaiaFunSchema.mkList Fixtures.foo_metadata)
           (Fixtures.env (10 ^ 20) Fixtures.ok_hash) []).
  reflexivity.
Defined.

(** C2 — when the balance read returns less than the listing fee of
    10 * 10^18, [list] is rejected with neither a metadata POST nor a
    submission, on whatever chain the client is; once the chain-id guard
    has passed, the error is [Insufficient balance] and the balance read
    is the only call made. *)
Theorem list_rejects_insufficient_balance :
  forall (core weth : Receipt.Hex) (this : KaiaFunClient.Client)
         (lo : KaiaFunSchema.ListOptions) (env : IO.Env) (balance : Z),
    let signer := KaiaFunClient.address
                    (KaiaFunClient.wallet_account (KaiaFunClient.walletClient this)) in
    let result := IO.run (KaiaFunClient.list core weth this lo) env in
    IO.getBalance env signer = JS.Return balance ->
    balance < 10 * 10 ^ 18 ->
    (exists e, fst result = JS.Throw e)
    /\ Props.no_post (snd result) = true
    /\ Props.no_submission (snd result) = true
    /\ (forall c t,
          KaiaFunClient.chain (KaiaFunClient.walletClient this) = Some c ->
          Chain.id c = 8217 ->
          KaiaFunClient.list core weth this lo env t
          = (JS.Throw (JS.new_Error "Insufficient balance"),
             (t ++ [IO.GetBalance signer])%list)).
Proof.
  intros core weth this lo env balance signer result Hbal Hlt.
  assert (Hrun : KaiaFunClient.chain_differs this = false ->
                 forall t, KaiaFunClient.list core weth this lo env t
                   = (JS.Throw (JS.new_Error "Insufficient balance"),
                      (t ++ [IO.GetBalance signer])%list)).
  { intros Hg t. unfold KaiaFunClient.list. rewrite Hg.
    unfold IO.bind at 1. unfold IO.call at 1. fold signer. rewrite Hbal.
    unfold IO.bind at 1. unfold ViemM.parseEther, IO.bind at 1, IO.ask, IO.lift.
    rewrite parseEther_10.
    apply Z.ltb_lt in Hlt. rewrite Hlt. reflexivity. }
  assert (Hall : (exists e, fst result = JS.Throw e)
                 /\ Props.no_post (snd result) = true
                 /\ Props.no_submission (snd result) = true).
  { unfold result, IO.run.
    destruct (KaiaFunClient.chain_differs this) eqn:Hg.
    - destruct (guard_stops_everything core weth this Hg
                  (KaiaFunSchema.mkBuy "" 0 None) (KaiaFunSchema.mkSell "" 0 None None)
                  lo env []) as (_ & _ & ->).
      split; [eexists; reflexivity | split; reflexivity].
    - rewrite (Hrun eq_refl). split; [eexists; reflexivity | split; reflexivity]. }
  destruct Hall as (H1 & H2 & H3).
  split; [exact H1|]. split; [exact H2|]. split; [exact H3|].
  intros c t Hc Hid. apply Hrun. now apply chain_differs_kaia with c.
Qed.

(** The scenario of the specification: the signer holds the fee minus
    one smallest unit. *)
Lemma list_rejects_insufficient_balance_witness :
  IO.run (KaiaFunClient.list Fixtures.core_address Fixtures.weth_address
            Fixtures.kaia_client (KaiaFunSchema.mkList Fixtures.foo_metadata))
         (Fixtures.env (10 * 10 ^ 18 - 1) Fixtures.ok_hash)
  = (JS.Throw (JS.new_Error "Insufficient balance"),
     [IO.GetBalance (KaiaFunClient.address Fixtures.signer)]).
Proof.
  destruct (list_rejects_insufficient_balance
              Fixtures.core_address Fixtures.weth_address Fixtures.kaia_client
              (KaiaFunSchema.mkList Fixtures.foo_metadata)
              (Fixtures.env (10 * 10 ^ 18 - 1) Fixtures.ok_hash)
              (10 * 10 ^ 18 - 1) eq_refl eq_refl) as (_ & _ & _ & H).
  apply (H Chain.kaiaMainnet []); reflexivity.
Defined.

(** At a balance of exactly the fee the check passes and the listing
    goes on to the metadata POST and the submission. *)
Lemma list_proceeds_at_exact_fee :
  snd (IO.run (KaiaFunClient.list Fixtures.core_address Fixtures.weth_address
                 Fixtures.kaia_client (KaiaFunSchema.mkList Fixtures.foo_metadata))
              (Fixtures.env (10 * 10 ^ 18) Fixtures.ok_hash))
  <> [IO.GetBalance (KaiaFunClient.address Fixtures.signer)]
  /\ Props.no_submission
       (snd (IO.run (KaiaFunClient.list Fixtures.core_address Fixtures.weth_address
                       Fixtures.kaia_client (KaiaFunSchema.mkList Fixtures.foo_metadata))
                    (Fixtures.env (10 * 10 ^ 18) Fixtures.ok_hash))) = false.
Proof. split; [vm_compute; discriminate | vm_compute; reflexivity]. Qed.

(** C6, as stated, fails: with a zero amount and a token address that
    is no address, [buy] and [sell] are not rejected; the call goes to
    [writeContract] with the values as given. *)
Lemma buy_sell_submit_invalid_input :
  KaiaFunSchema.buy_amount (KaiaFunSchema.mkBuy "0x12" 0 None) <= 0
  /\ Server.is_token_address "0x12" = false
  /\ ~ Props.rejected_before_submission
         (KaiaFunClient.buy Fixtures.core_address Fixtures.kaia_client
            (KaiaFunSchema.mkBuy "0x12" 0 None))
         (Fixtures.env 0 Fixtures.ok_hash)
  /\ ~ Props.rejected_before_submission
         (KaiaFunClient.sell Fixtures.core_address Fixtures.kaia_client
            (KaiaFunSchema.mkSell "0x12" (-5) None None))
         (Fixtures.env 0 Fixtures.ok_hash).
Proof.
  split; [vm_compute; discriminate|].
  split; [reflexivity|].
  split; intros (e & t & Hrun & _); vm_compute in Hrun; discriminate.
Qed.

(** C6, amended — the client checks nothing but the chain id: on the
    Kaia chain, whatever the amount and the token address, the first
    thing [buy] and [sell] do is call [writeContract] with exactly the
    values they were given. *)
Theorem buy_sell_submit_unchecked :
  forall (core : Receipt.Hex) (this : KaiaFunClient.Client)
         (bo : KaiaFunSchema.BuyOptions) (so : KaiaFunSchema.SellOptions)
         (env : IO.Env) (t : IO.Trace),
    KaiaFunClient.chain_differs this = false ->
    (exists rest,
        snd (KaiaFunClient.buy core this bo env t)
        = (t ++ IO.WriteContract
                  {| IO.to := core;
                     IO.abi := [ABI.buyWithETH];
                     IO.functionName := "buyWithETH";
                     IO.args :=
                       [IO.AddressArg (KaiaFunSchema.buy_tokenAddress bo);
                        IO.UintArg (match KaiaFunSchema.minTokenAmount bo with
                                    | Some m => m
                                    | None => 0
                                    end)];
                     IO.value := Some (KaiaFunSchema.buy_amount bo) |}
              :: rest)%list)
    /\ (exists rest,
           snd (KaiaFunClient.sell core this so env t)
           = (t ++ IO.WriteContract
                     {| IO.to := core;
                        IO.abi := [ABI.sell];
                        IO.functionName := "sell";
                        IO.args :=
                          [IO.AddressArg (KaiaFunSchema.sell_tokenAddress so);
                           IO.UintArg (KaiaFunSchema.sell_amount so);
                           IO.UintArg (match KaiaFunSchema.minBaseAmount so with
                                       | Some m => m
                                       | None => 0
                                       end);
                           IO.BoolArg (match KaiaFunSchema.isOutputKAIA so with
                                       | Some b => b
                                       | None => true
                                       end)];
                        IO.value := None |}
                 :: rest)%list).
Proof.
  intros core this bo so env t Hg.
  split.
  - unfold KaiaFunClient.buy. rewrite Hg.
    unfold IO.bind at 1. unfold IO.call at 1.
    destruct (IO.writeContract env _) as [hash|e].
    + unfold IO.bind at 1. unfold IO.call at 1.
      destruct (IO.waitForTransactionReceipt env hash) as [receipt|e].
      * exists [IO.WaitForTransactionReceipt hash].
        cbn. now rewrite <- app_assoc.
      * exists [IO.WaitForTransactionReceipt hash].
        cbn. now rewrite <- app_assoc.
    + exists []. reflexivity.
  - unfold KaiaFunClient.sell. rewrite Hg.
    unfold IO.bind at 1. unfold IO.call at 1.
    destruct (IO.writeContract env _) as [hash|e].
    + unfold IO.bind at 1. unfold IO.call at 1.
      destruct (IO.waitForTransactionReceipt env hash) as [receipt|e].
      * exists [IO.WaitForTransactionReceipt hash].
        cbn. now rewrite <- app_assoc.
      * exists [IO.WaitForTransactionReceipt hash].
        cbn. now rewrite <- app_assoc.
    + exists []. reflexivity.
Qed.

Lemma buy_sell_submit_unchecked_witness :
  exists rest,
    snd (IO.run (KaiaFunClient.buy Fixtures.core_address Fixtures.kaia_client
                   (KaiaFunSchema.mkBuy "0x12" 0 None))
                (Fixtures.env 0 Fixtures.ok_hash))
    = IO.WriteContract
        {| IO.to := Fixtures.core_address;
           IO.abi := [ABI.buyWithETH];
           IO.functionName := "buyWithETH";
           IO.args := [IO.AddressArg "0x12"; IO.UintArg 0];
           IO.value := Some 0 |}
      :: rest.
Proof.
  apply (proj1 (buy_sell_submit_unchecked Fixtures.core_address Fixtures.kaia_client
                  (KaiaFunSchema.mkBuy "0x12" 0 None)
                  (KaiaFunSchema.mkSell "0x12" 0 None None)
                  (Fixtures.env 0 Fixtures.ok_hash) [] eq_refl)).
Defined.

(** Upstream of the client, the tool schema checks the address format
    but not the sign of the amount: [buy_memecoin] with the amount ["0"]
    reaches [writeContract] with a value of zero, [sell_memecoin] with
    the amount ["-1"] reaches it with a negative token amount, and only
    the malformed address is stopped before the client is called. *)
Lemma tool_schema_checks_address_only :
  existsb Props.is_write
    (snd (IO.run (Server.buy_memecoin Fixtures.zod_message Fixtures.core_address
                    Fixtures.server
                    (JS.Object [("tokenAddress", JS.Str Fixtures.token);
                                ("amount", JS.Str "0")]))
                 (Fixtures.env 0 Fixtures.ok_hash)))
  = true
  /\ snd (IO.run (Server.sell_memecoin Fixtures.zod_message Fixtures.core_address
                    Fixtures.server
                    (JS.Object [("tokenAddress", JS.Str Fixtures.token);
                                ("amount", JS.Str "-1")]))
                 (Fixtures.env 0 Fixtures.ok_hash))
     = [IO.WriteContract
          {| IO.to := Fixtures.core_address;
             IO.abi := [ABI.sell];
             IO.functionName := "sell";
             IO.args := [IO.AddressArg Fixtures.token; IO.UintArg (- 10 ^ 18);
                         IO.UintArg 0; IO.BoolArg true];
             IO.value := None |};
        IO.WaitForTransactionReceipt "0xhash"]
  /\ IO.run (Server.buy_memecoin Fixtures.zod_message Fixtures.core_address
               Fixtures.server
               (JS.Object [("tokenAddress", JS.Str "0x12"); ("amount", JS.Str "1")]))
            (Fixtures.env 0 Fixtures.ok_hash)
     = (JS.Return (Server.mkText "Error buying memecoin: invalid arguments"),
        [IO.ConsoleError "Error buying memecoin:"; IO.ConsoleError "Full error:"]).
Proof. repeat split. Qed.

(** C4 — [list] reads only [name], [symbol], [description] and
    [imageURL] of the metadata: the social links never reach the
    serialization, so listings that differ only in [twitter], [telegram]
    and [website] make the same calls with the same payload.  The
    serialized object has the six keys below and no other. *)
Theorem list_drops_social_links :
  forall (core weth : Receipt.Hex) (this : KaiaFunClient.Client)
         (m : KaiaFunSchema.Metadata) (tw tg ws : option string),
    KaiaFunClient.list core weth this (KaiaFunSchema.mkList m)
    = KaiaFunClient.list core weth this
        (KaiaFunSchema.mkList
           (KaiaFunSchema.mkMetadata (KaiaFunSchema.name m) (KaiaFunSchema.symbol m)
              (KaiaFunSchema.description m) (KaiaFunSchema.imageURL m) tw tg ws))
    /\ (forall creator t,
          exists fields,
            KaiaFunClient.metadata_object m creator t = JS.Object fields
            /\ map fst fields
               = ["name"; "symbol"; "description"; "imageURL"; "creator"; "t"]).
Proof.
  intros core weth this m tw tg ws. split.
  - destruct m. reflexivity.
  - intros creator t. eexists. split; reflexivity.
Qed.

(** The failing input: a listing with all three links posts the very
    request of the listing without them. *)
Lemma list_posts_same_payload_with_links :
  IO.run (KaiaFunClient.list Fixtures.core_address Fixtures.weth_address
            Fixtures.kaia_client (KaiaFunSchema.mkList Fixtures.foo_metadata_with_links))
         (Fixtures.env (10 ^ 20) Fixtures.ok_hash)
  = IO.run (KaiaFunClient.list Fixtures.core_address Fixtures.weth_address
              Fixtures.kaia_client (KaiaFunSchema.mkList Fixtures.foo_metadata))
           (Fixtures.env (10 ^ 20) Fixtures.ok_hash)
  /\ Props.no_post
       (snd (IO.run (KaiaFunClient.list Fixtures.core_address Fixtures.weth_address
                       Fixtures.kaia_client
                       (KaiaFunSchema.mkList Fixtures.foo_metadata_with_links))
                    (Fixtures.env (10 ^ 20) Fixtures.ok_hash))) = false.
Proof. split; reflexivity. Qed.

(** The tool layer accepts the three links and hands them to [list] in
    the metadata; the run is nevertheless the run without them. *)
Lemma list_memecoin_forwards_links :
  Server.listMemecoin_parse Fixtures.zod_message Fixtures.has_scheme
    (Fixtures.list_args Fixtures.some_links)
  = JS.Return Fixtures.foo_metadata_with_links
  /\ IO.run (Server.list_memecoin Fixtures.zod_message Fixtures.has_scheme
               Fixtures.core_address Fixtures.weth_address Fixtures.server
               (Fixtures.list_args Fixtures.some_links))
            (Fixtures.env (10 ^ 20) Fixtures.ok_hash)
     = IO.run (Server.list_memecoin Fixtures.zod_message Fixtures.has_scheme
                 Fixtures.core_address Fixtures.weth_address Fixtures.server
                 (Fixtures.list_args []))
              (Fixtures.env (10 ^ 20) Fixtures.ok_hash).
Proof. split; reflexivity. Qed.

(** A failing metadata POST aborts the listing: the error propagates and
    nothing is submitted. *)
Lemma list_aborts_when_post_fails :
  forall (core weth : Receipt.Hex) (this : KaiaFunClient.Client)
         (lo : KaiaFunSchema.ListOptions) (env : IO.Env),
    (forall url body headers,
        match IO.http_post env url body headers with
        | IO.NetworkError _ => True
        | IO.Response st _ => Axios.validateStatus st = false
        end) ->
    exists e t,
      IO.run (KaiaFunClient.list core weth this lo) env = (JS.Throw e, t)
      /\ Props.no_submission t = true.
Proof.
  intros core weth this lo env Hfail.
  unfold IO.run, KaiaFunClient.list.
  destruct (KaiaFunClient.chain_differs this); [eexists; eexists; split; reflexivity|].
  unfold IO.bind at 1. unfold IO.call at 1.
  destruct (IO.getBalance env _) as [balance|e];
    [|eexists; eexists; split; reflexivity].
  unfold IO.bind at 1. unfold ViemM.parseEther, IO.bind at 1, IO.ask, IO.lift.
  rewrite parseEther_10.
  destruct (balance <? 10 * 10 ^ 18); [eexists; eexists; split; reflexivity|].
  unfold IO.bind at 1. unfold IO.call at 1.
  unfold IO.bind at 1. unfold Axios.post, IO.bind at 1, IO.call at 1.
  match goal with
  | |- context [IO.http_post env ?u ?b ?h] =>
      specialize (Hfail u b h); destruct (IO.http_post env u b h) as [e|st d]
  end.
  - eexists; eexists; split; reflexivity.
  - rewrite Hfail. eexists; eexists; split; reflexivity.
Qed.

(** * The upload helper *)

(** C7, as stated, fails on a malformed body that still has a [url]
    member: a 2xx response carrying [{url: 42}] makes [uploadImage]
    return the number 42, which is neither a failure signal nor a
    string. *)
Lemma uploadImage_returns_unchecked_url :
  Props.lacks_url_string (JS.Object [("url", JS.Number 42)]) = true
  /\ fst (IO.run (KaiaFunClient.uploadImage Fixtures.kaia_client Fixtures.png)
            (Fixtures.env 0 (IO.Response 200 (JS.Object [("url", JS.Number 42)]))))
     = JS.Return (JS.Number 42)
  /\ Props.is_none (JS.Number 42) = false.
Proof. repeat split. Qed.

(** C7, amended — [uploadImage] never throws and posts exactly once.  It
    returns [null] when the transport fails, when the status is outside
    2xx and when the body is [null]; it returns [undefined] when the
    body came back as text (empty or unparseable) and when the body is
    an object without a [url] member; otherwise it returns the [url]
    member as received. *)
Theorem uploadImage_never_throws :
  forall (this : KaiaFunClient.Client) (file : IO.File) (env : IO.Env),
    let url := KaiaFunClient.API_BASE_URL ++ "/upload?filename=" ++ IO.file_name file in
    let headers := [("Content-Type", IO.file_type file)] in
    let outcome := IO.http_post env url (IO.FileBody file) headers in
    let result := IO.run (KaiaFunClient.uploadImage this file) env in
    (exists v, fst result = JS.Return v)
    /\ filter Props.is_post (snd result) = [IO.Post url (IO.FileBody file) headers]
    /\ (forall e, outcome = IO.NetworkError e -> fst result = JS.Return JS.Null)
    /\ (forall st d, outcome = IO.Response st d -> Axios.validateStatus st = false ->
                     fst result = JS.Return JS.Null)
    /\ (forall st, outcome = IO.Response st JS.Null -> fst result = JS.Return JS.Null)
    /\ (forall st s, outcome = IO.Response st (JS.Str s) -> Axios.validateStatus st = true ->
                     fst result = JS.Return JS.Undefined)
    /\ (forall st fields, outcome = IO.Response st (JS.Object fields) ->
                          Axios.validateStatus st = true ->
                          JS.lookup_field "url" fields = None ->
                          fst result = JS.Return JS.Undefined)
    /\ (forall st fields u, outcome = IO.Response st (JS.Object fields) ->
                            Axios.validateStatus st = true ->
                            JS.lookup_field "url" fields = Some u ->
                            fst result = JS.Return u).
Proof.
  intros this file env url headers outcome result.
  assert (Hrun : result =
    match outcome with
    | IO.NetworkError _ =>
        (JS.Return JS.Null,
         [IO.Post url (IO.FileBody file) headers; IO.ConsoleError "Error:"])
    | IO.Response st d =>
        if Axios.validateStatus st then
          match JS.get_property d "url" with
          | JS.Return v => (JS.Return v, [IO.Post url (IO.FileBody file) headers])
          | JS.Throw _ =>
              (JS.Return JS.Null,
               [IO.Post url (IO.FileBody file) headers; IO.ConsoleError "Error:"])
          end
        else (JS.Return JS.Null,
              [IO.Post url (IO.FileBody file) headers; IO.ConsoleError "Error:"])
    end).
  { unfold result, IO.run, KaiaFunClient.uploadImage, IO.try_catch.
    unfold IO.bind at 1. unfold Axios.post, IO.bind at 1, IO.call at 1.
    fold url. fold headers. fold outcome.
    destruct outcome as [e|st d]; [reflexivity|].
    destruct (Axios.validateStatus st); [|reflexivity].
    cbn. destruct (JS.get_property d "url"); reflexivity. }
  rewrite Hrun. clear Hrun.
  split.
  { destruct outcome as [e|st d]; [eexists; reflexivity|].
    destruct (Axios.validateStatus st); [|eexists; reflexivity].
    destruct (JS.get_property d "url"); eexists; reflexivity. }
  split.
  { destruct outcome as [e|st d]; [reflexivity|].
    destruct (Axios.validateStatus st); [|reflexivity].
    destruct (JS.get_property d "url"); reflexivity. }
  split; [intros e ->; reflexivity|].
  split; [intros st d -> ->; reflexivity|].
  split; [intros st ->; destruct (Axios.validateStatus st); reflexivity|].
  split; [intros st s -> ->; reflexivity|].
  split; [intros st fields -> -> Hl; cbn; rewrite Hl; reflexivity|].
  intros st fields u -> -> Hl. cbn. rewrite Hl. reflexivity.
Qed.

(** The scenario of the specification: the endpoint answers HTTP 500. *)
Lemma uploadImage_never_throws_witness :
  fst (IO.run (KaiaFunClient.uploadImage Fixtures.kaia_client Fixtures.png)
         (Fixtures.env 0 (IO.Response 500 (JS.Str "Internal Server Error"))))
  = JS.Return JS.Null.
Proof.
  destruct (uploadImage_never_throws Fixtures.kaia_client Fixtures.png
              (Fixtures.env 0 (IO.Response 500 (JS.Str "Internal Server Error"))))
    as (_ & _ & _ & H & _).
  apply (H 500 (JS.Str "Internal Server Error")); reflexivity.
Defined.

(** * The tool handlers *)

Section StringFacts.
Import JSString.

Lemma chars_of_chars (l : list ascii) : chars (of_chars l) = l.
Proof. apply list_ascii_of_string_of_list_ascii. Qed.

Lemma of_chars_chars (s : string) : of_chars (chars s) = s.
Proof. apply string_of_list_ascii_of_string. Qed.

Lemma length_of_chars (l : list ascii) : String.length (of_chars l) = List.length l.
Proof. induction l as [|c l IH]; simpl; [reflexivity | now rewrite IH]. Qed.

Lemma of_chars_app (l1 l2 : list ascii) :
  of_chars (l1 ++ l2)%list = of_chars l1 ++ of_chars l2.
Proof. induction l1 as [|c l1 IH]; simpl; [reflexivity | now rewrite IH]. Qed.

Lemma lower_char_not_upper (c : ascii) : Props.is_upper (lower_char c) = false.
Proof. destruct c as [[] [] [] [] [] [] [] []]; reflexivity. Qed.

Lemma lower_char_keeps_hex (c : ascii) :
  Server.is_hex_digit c = true -> Server.is_hex_digit (lower_char c) = true.
Proof. destruct c as [[] [] [] [] [] [] [] []]; intros H; try reflexivity; discriminate H. Qed.

Lemma lower_char_idempotent (c : ascii) : lower_char (lower_char c) = lower_char c.
Proof. destruct c as [[] [] [] [] [] [] [] []]; reflexivity. Qed.

Lemma toLowerCase_no_upper (s : string) :
  forallb (fun c => negb (Props.is_upper c)) (chars (toLowerCase s)) = true.
Proof.
  unfold toLowerCase. rewrite chars_of_chars.
  induction (chars s) as [|c l IH]; simpl; [reflexivity|].
  now rewrite lower_char_not_upper, IH.
Qed.

Lemma toLowerCase_keeps_address (a : string) :
  Server.is_token_address a = true ->
  Server.is_token_address (toLowerCase a) = true.
Proof.
  unfold Server.is_token_address, toLowerCase. rewrite chars_of_chars.
  destruct (chars a) as [|c0 [|c1 r]]; try discriminate.
  intros H. apply andb_true_iff in H as [H Hhex].
  apply andb_true_iff in H as [H Hlen].
  apply andb_true_iff in H as [H0 H1].
  apply Ascii.eqb_eq in H0, H1. subst c0 c1. cbn [map].
  change (lower_char "0") with "0"%char. change (lower_char "x") with "x"%char.
  rewrite !Ascii.eqb_refl, length_map, Hlen. cbn [andb].
  clear Hlen. induction r as [|c r IH]; [reflexivity|].
  simpl in Hhex |- *. apply andb_true_iff in Hhex as [Hc Hr].
  now rewrite (lower_char_keeps_hex c Hc), IH.
Qed.

Lemma address_chars (a : string) :
  Server.is_token_address a = true ->
  exists r, chars a = ("0" :: "x" :: r)%char%list
            /\ List.length r = 40%nat
            /\ forallb Server.is_hex_digit r = true.
Proof.
  unfold Server.is_token_address.
  destruct (chars a) as [|c0 [|c1 r]]; try discriminate.
  intros H. apply andb_true_iff in H as [H Hhex].
  apply andb_true_iff in H as [H Hlen].
  apply andb_true_iff in H as [H0 H1].
  apply Ascii.eqb_eq in H0, H1. subst c0 c1.
  exists r. repeat split; [now apply Nat.eqb_eq | exact Hhex].
Qed.

Lemma lower_char_lowered (c : ascii) :
  Server.is_hex_digit c = true -> Props.lowered c (lower_char c).
Proof.
  destruct c as [[] [] [] [] [] [] [] []]; intros H; try discriminate H; reflexivity.
Qed.

Lemma lowered_lower_char (c c' : ascii) :
  Props.lowered c c' -> lower_char c = lower_char c'.
Proof.
  unfold Props.lowered. destruct (Props.is_upper c) eqn:Hu.
  - intros H. assert (Hc' : c' = ascii_of_nat (nat_of_ascii c + 32)).
    { rewrite <- H. symmetry. apply ascii_nat_embedding. }
    subst c'. clear H.
    destruct c as [[] [] [] [] [] [] [] []]; try discriminate Hu; reflexivity.
  - now intros ->.
Qed.

Lemma lower_char_digit_value (c : ascii) :
  BigInt.digit_value 16 (lower_char c) = BigInt.digit_value 16 c.
Proof. destruct c as [[] [] [] [] [] [] [] []]; reflexivity. Qed.

Lemma digits_value_lower (acc : N) (l : list ascii) :
  BigInt.digits_value 16 acc (map lower_char l) = BigInt.digits_value 16 acc l.
Proof.
  revert acc. induction l as [|c l IH]; intros acc; [reflexivity|].
  cbn [map BigInt.digits_value]. rewrite lower_char_digit_value.
  destruct (BigInt.digit_value 16 c); [apply IH | reflexivity].
Qed.

Lemma hex_digit_not_white_space (c : ascii) :
  Server.is_hex_digit c = true -> is_white_space c = false.
Proof.
  destruct c as [[] [] [] [] [] [] [] []]; intros H; try discriminate H; reflexivity.
Qed.

Lemma drop_while_white_space_head (c : ascii) (l : list ascii) :
  is_white_space c = false -> drop_while is_white_space (c :: l) = c :: l.
Proof. intros H. simpl. now rewrite H. Qed.

(** Nothing is trimmed off an address. *)
Lemma trim_chars_address (r : list ascii) :
  forallb Server.is_hex_digit r = true ->
  trim_chars ("0" :: "x" :: r)%char = ("0" :: "x" :: r)%char%list.
Proof.
  intros Hhex. unfold trim_chars.
  rewrite drop_while_white_space_head by reflexivity.
  assert (H : drop_while is_white_space (rev ("0" :: "x" :: r)%char)
              = rev ("0" :: "x" :: r)%char).
  { destruct (rev ("0" :: "x" :: r)%char) as [|c l] eqn:E; [reflexivity|].
    apply drop_while_white_space_head.
    assert (Hin : In c ("0" :: "x" :: r)%char).
    { apply in_rev. rewrite E. now left. }
    destruct Hin as [<-|[<-|Hin]]; [reflexivity | reflexivity |].
    apply hex_digit_not_white_space.
    rewrite forallb_forall in Hhex. now apply Hhex. }
  rewrite H. apply rev_involutive.
Qed.

(** The number an address denotes does not depend on the case of its
    digits. *)
Lemma StringToBigInt_address_lower (a : string) :
  Server.is_token_address a = true ->
  BigInt.StringToBigInt (toLowerCase a) = BigInt.StringToBigInt a.
Proof.
  intros Ha. destruct (address_chars a Ha) as (r & Hr & Hlen & Hhex).
  assert (Hhex' : forallb Server.is_hex_digit (map lower_char r) = true).
  { clear Hlen Hr. induction r as [|c r IH]; [reflexivity|].
    simpl in Hhex |- *. apply andb_true_iff in Hhex as [Hc Hrest].
    now rewrite (lower_char_keeps_hex c Hc), IH. }
  unfold BigInt.StringToBigInt, toLowerCase.
  rewrite chars_of_chars, Hr. cbn [map].
  change (lower_char "0") with "0"%char. change (lower_char "x") with "x"%char.
  rewrite (trim_chars_address _ Hhex'), (trim_chars_address _ Hhex).
  cbn [BigInt.has_prefix Ascii.eqb Bool.eqb andb orb].
  unfold BigInt.numeral. rewrite digits_value_lower.
  destruct r; [discriminate Hlen | reflexivity].
Qed.

Lemma toLowerCase_lowered (a : string) :
  Server.is_token_address a = true ->
  Forall2 Props.lowered (chars a) (chars (toLowerCase a)).
Proof.
  intros Ha. destruct (address_chars a Ha) as (r & Hr & _ & Hhex).
  unfold toLowerCase. rewrite chars_of_chars, Hr. cbn [map].
  constructor; [reflexivity|]. constructor; [reflexivity|].
  clear Hr. induction r as [|c r IH]; [constructor|].
  simpl in Hhex. apply andb_true_iff in Hhex as [Hc Hrest].
  cbn [map]. constructor; [now apply lower_char_lowered | now apply IH].
Qed.

Lemma toLowerCase_same_up_to_case (a b : string) :
  Props.same_up_to_case a b -> toLowerCase a = toLowerCase b.
Proof.
  unfold Props.same_up_to_case, toLowerCase. intros H. f_equal.
  induction H as [|c c' l l' Hc _ IH]; [reflexivity|].
  cbn [map]. rewrite IH. f_equal.
  destruct Hc as [->|[Hc|Hc]]; [reflexivity | |].
  - now apply lowered_lower_char.
  - symmetry. now apply lowered_lower_char.
Qed.

End StringFacts.

(** C10 — for a well-formed token address, [get_token_url] makes no
    call and answers with the URL [https://kaiafun.io/token/] followed by
    the address in lower case: character by character the address with
    each upper-case letter replaced by its lower-case letter and every
    other character kept, hence without upper-case letter, still a
    well-formed address, and denoting the same number; addresses that
    differ only in letter case give the same answer. *)
Theorem get_token_url_lowercase :
  forall (zod_message : JS.Value -> string) (a : string)
         (fields : list (string * JS.Value)) (env : IO.Env) (t : IO.Trace),
    Server.is_token_address a = true ->
    JS.lookup_field "tokenAddress" fields = Some (JS.Str a) ->
    Server.get_token_url zod_message (JS.Object fields) env t
      = (JS.Return
           (Server.mkText
              ("Token URL: " ++ "https://kaiafun.io/token/" ++ JSString.toLowerCase a)), t)
    /\ Forall2 Props.lowered (JSString.chars a) (JSString.chars (JSString.toLowerCase a))
    /\ forallb (fun c => negb (Props.is_upper c))
         (JSString.chars (JSString.toLowerCase a)) = true
    /\ Server.is_token_address (JSString.toLowerCase a) = true
    /\ BigInt.StringToBigInt (JSString.toLowerCase a) = BigInt.StringToBigInt a
    /\ (forall a' fields',
          Server.is_token_address a' = true ->
          JS.lookup_field "tokenAddress" fields' = Some (JS.Str a') ->
          Props.same_up_to_case a' a ->
          Server.get_token_url zod_message (JS.Object fields') env t
          = Server.get_token_url zod_message (JS.Object fields) env t).
Proof.
  intros zod_message a fields env t Haddr Hfield.
  assert (Hrun : forall b fs,
            Server.is_token_address b = true ->
            JS.lookup_field "tokenAddress" fs = Some (JS.Str b) ->
            Server.get_token_url zod_message (JS.Object fs) env t
            = (JS.Return
                 (Server.mkText
                    ("Token URL: " ++ "https://kaiafun.io/token/"
                     ++ JSString.toLowerCase b)), t)).
  { intros b fs Hb Hf.
    unfold Server.get_token_url, IO.try_catch, IO.bind, IO.lift,
      Server.getTokenUrl_parse, Server.parse_string_field.
    rewrite Hf, Hb. reflexivity. }
  split; [now apply Hrun|].
  split; [now apply toLowerCase_lowered|].
  split; [apply toLowerCase_no_upper|].
  split; [now apply toLowerCase_keeps_address|].
  split; [now apply StringToBigInt_address_lower|].
  intros a' fields' Ha' Hf' Hsame.
  rewrite (Hrun a' fields' Ha' Hf'), (Hrun a fields Haddr Hfield).
  now rewrite (toLowerCase_same_up_to_case a' a Hsame).
Qed.

(** A checksummed (mixed-case) address. *)
Lemma get_token_url_lowercase_witness :
  IO.run (Server.get_token_url Fixtures.zod_message
            (JS.Object [("tokenAddress",
                         JS.Str "0xAbCdEf0123456789aBcDeF0123456789abcdef01")]))
         (Fixtures.env 0 Fixtures.ok_hash)
  = (JS.Return
       (Server.mkText
          "Token URL: https://kaiafun.io/token/0xabcdef0123456789abcdef0123456789abcdef01"),
     []).
Proof.
  apply (get_token_url_lowercase Fixtures.zod_message
           "0xAbCdEf0123456789aBcDeF0123456789abcdef01"
           [("tokenAddress", JS.Str "0xAbCdEf0123456789aBcDeF0123456789abcdef01")]
           (Fixtures.env 0 Fixtures.ok_hash) []).
  - reflexivity.
  - reflexivity.
Defined.

(** * Unit conversions *)

Section UnitFacts.
Import JSString Digits.

Lemma is_digit_cases (c : ascii) : is_digit c = true -> In c digit_chars.
Proof.
  destruct c as [[] [] [] [] [] [] [] []]; intros H; try discriminate H;
    unfold digit_chars; simpl; tauto.
Qed.

Ltac digit_cases c H :=
  apply is_digit_cases in H; unfold digit_chars in H; simpl in H;
  repeat (destruct H as [H|H]; [subst c|]); [..|contradiction].

Lemma of_lu_rev_step (d : Decimal.uint) :
  d <> Decimal.Nil ->
  (Unsigned.of_lu (Decimal.rev d)
   = Unsigned.of_lu (Decimal.rev (Unsigned.tl d))
     + Unsigned.hd d * 10 ^ Unsigned.usize (Unsigned.tl d))%N
  /\ Unsigned.usize d = N.succ (Unsigned.usize (Unsigned.tl d)).
Proof.
  intros Hd. destruct d; [contradiction|..];
    (split; [|reflexivity]);
    unfold Decimal.rev; cbn [Decimal.revapp Unsigned.tl Unsigned.hd];
    rewrite Unsigned.of_lu_revapp; cbn [Unsigned.of_lu]; f_equal; lia.
Qed.

Lemma digit_uint_not_nil (c : ascii) (d : Decimal.uint) : digit_uint c d <> Decimal.Nil.
Proof.
  unfold digit_uint.
  destruct (nat_of_ascii c - 48)%nat as [|[|[|[|[|[|[|[|[|n]]]]]]]]]; discriminate.
Qed.

Lemma digit_uint_tl (c : ascii) (d : Decimal.uint) : Unsigned.tl (digit_uint c d) = d.
Proof.
  unfold digit_uint.
  destruct (nat_of_ascii c - 48)%nat as [|[|[|[|[|[|[|[|[|n]]]]]]]]]; reflexivity.
Qed.

Lemma digit_uint_hd (c : ascii) (d : Decimal.uint) :
  is_digit c = true ->
  BigInt.digit_value 10 c = Some (Unsigned.hd (digit_uint c d)).
Proof. intros H. digit_cases c H; reflexivity. Qed.

Lemma digits_value_uint (l : list ascii) :
  forallb is_digit l = true ->
  forall acc,
    BigInt.digits_value 10 acc l
    = Some (Unsigned.of_lu (Decimal.rev (uint_of_digits l))
            + acc * 10 ^ Unsigned.usize (uint_of_digits l))%N.
Proof.
  induction l as [|c r IH]; intros Hd acc.
  - simpl. f_equal. lia.
  - simpl in Hd. apply andb_true_iff in Hd as [Hc Hr].
    cbn [BigInt.digits_value uint_of_digits].
    rewrite (digit_uint_hd c (uint_of_digits r) Hc), (IH Hr).
    destruct (of_lu_rev_step (digit_uint c (uint_of_digits r))
                (digit_uint_not_nil c _)) as [-> ->].
    rewrite digit_uint_tl, N.pow_succ_r'. f_equal. ring.
Qed.

Lemma BigInt_digits (l : list ascii) :
  forallb is_digit l = true ->
  BigInt.digits_value 10 0 l = Some (N.of_uint (uint_of_digits l)).
Proof.
  intros H. rewrite (digits_value_uint l H).
  unfold N.of_uint. rewrite Unsigned.of_uint_alt. f_equal. lia.
Qed.

Lemma uint_of_digits_nil (l : list ascii) :
  uint_of_digits l = Decimal.Nil -> l = [].
Proof.
  destruct l as [|c r]; [reflexivity|].
  intros H. exfalso. exact (digit_uint_not_nil c _ H).
Qed.

Lemma nzhead_digits (l : list ascii) :
  forallb is_digit l = true ->
  Decimal.nzhead (uint_of_digits l) = uint_of_digits (drop_zeros l).
Proof.
  induction l as [|c r IH]; intros Hd; [reflexivity|].
  simpl in Hd. apply andb_true_iff in Hd as [Hc Hr].
  digit_cases c Hc; cbn; try reflexivity. now apply IH.
Qed.

Lemma string_of_digits (l : list ascii) :
  forallb is_digit l = true ->
  NilEmpty.string_of_uint (uint_of_digits l) = of_chars l.
Proof.
  induction l as [|c r IH]; intros Hd; [reflexivity|].
  simpl in Hd. apply andb_true_iff in Hd as [Hc Hr].
  digit_cases c Hc;
    change (of_chars (?x :: r)) with (String x (of_chars r));
    rewrite <- (IH Hr); reflexivity.
Qed.

Lemma drop_zeros_digits (l : list ascii) :
  forallb is_digit l = true -> forallb is_digit (drop_zeros l) = true.
Proof.
  induction l as [|c r IH]; intros Hd; [reflexivity|].
  simpl. destruct (Ascii.eqb c "0"); [|exact Hd].
  simpl in Hd. apply andb_true_iff in Hd as [_ Hr]. now apply IH.
Qed.

(** Printing the value of a digit string gives the string without its
    leading zeros. *)
Lemma toString_digits (l : list ascii) :
  forallb is_digit l = true ->
  BigInt.toString (Z.of_N (N.of_uint (uint_of_digits l))) = of_chars (canon l).
Proof.
  intros Hd. unfold BigInt.toString.
  assert (Hint : forall n, Z.to_int (Z.of_N n) = Decimal.Pos (N.to_uint n)).
  { intros [|p]; reflexivity. }
  rewrite Hint, DecimalN.Unsigned.to_of. cbn [NilZero.string_of_int].
  unfold Decimal.unorm. rewrite (nzhead_digits l Hd).
  unfold canon, NilZero.string_of_uint.
  pose proof (string_of_digits (drop_zeros l) (drop_zeros_digits l Hd)) as Hs.
  destruct (drop_zeros l) as [|c r] eqn:Hz; [reflexivity|].
  destruct (uint_of_digits (c :: r)) eqn:Hu;
    [apply uint_of_digits_nil in Hu; discriminate|..]; exact Hs.
Qed.

Lemma is_digit_not_white_space (c : ascii) :
  is_digit c = true -> is_white_space c = false.
Proof. intros H. digit_cases c H; reflexivity. Qed.

Lemma forallb_rev {A : Type} (p : A -> bool) (l : list A) :
  forallb p (rev l) = forallb p l.
Proof.
  induction l as [|x l IH]; [reflexivity|].
  simpl. rewrite forallb_app, IH. simpl. rewrite andb_true_r. apply andb_comm.
Qed.

Lemma drop_while_white_space_digits (l : list ascii) :
  forallb is_digit l = true -> drop_while is_white_space l = l.
Proof.
  destruct l as [|c r]; [reflexivity|]. simpl. intros H.
  apply andb_true_iff in H as [Hc _].
  now rewrite (is_digit_not_white_space c Hc).
Qed.

Lemma trim_chars_digits (l : list ascii) :
  forallb is_digit l = true -> trim_chars l = l.
Proof.
  intros H. unfold trim_chars.
  rewrite (drop_while_white_space_digits l H).
  rewrite drop_while_white_space_digits by now rewrite forallb_rev.
  apply rev_involutive.
Qed.

Lemma has_prefix_digits (a b B : ascii) (l : list ascii) :
  is_digit b = false -> is_digit B = false ->
  forallb is_digit l = true ->
  BigInt.has_prefix a b B l = None.
Proof.
  intros Hb HB Hl. destruct l as [|c0 [|c1 r]]; try reflexivity.
  simpl in Hl. apply andb_true_iff in Hl as [_ Hl].
  apply andb_true_iff in Hl as [H1 _].
  unfold BigInt.has_prefix.
  destruct (Ascii.eqb c1 b) eqn:E1; [apply Ascii.eqb_eq in E1; congruence|].
  destruct (Ascii.eqb c1 B) eqn:E2; [apply Ascii.eqb_eq in E2; congruence|].
  now rewrite andb_false_r.
Qed.

(** [BigInt] of a non-empty string of digits is its decimal value. *)
Lemma StringToBigInt_digits (l : list ascii) :
  l <> [] ->
  forallb is_digit l = true ->
  BigInt.StringToBigInt (of_chars l)
  = Some (Z.of_N (N.of_uint (uint_of_digits l))).
Proof.
  intros Hne Hd. unfold BigInt.StringToBigInt.
  rewrite chars_of_chars, (trim_chars_digits l Hd).
  destruct l as [|c r] eqn:El; [contradiction|]. rewrite <- El in *.
  rewrite !has_prefix_digits by (reflexivity || assumption).
  assert (Hc : is_digit c = true).
  { rewrite El in Hd. simpl in Hd. now apply andb_true_iff in Hd as [Hc _]. }
  assert (Hminus : Ascii.eqb c "-" = false)
    by (destruct (Ascii.eqb c "-") eqn:E; [apply Ascii.eqb_eq in E; now subst c|reflexivity]).
  assert (Hplus : Ascii.eqb c "+" = false)
    by (destruct (Ascii.eqb c "+") eqn:E; [apply Ascii.eqb_eq in E; now subst c|reflexivity]).
  rewrite Hminus, Hplus. unfold BigInt.numeral.
  rewrite (BigInt_digits l Hd). rewrite El at 1. reflexivity.
Qed.

Lemma canon_nonempty (l : list ascii) : canon l <> [].
Proof. unfold canon. destruct (drop_zeros l); discriminate. Qed.

Lemma canon_digits (l : list ascii) :
  forallb is_digit l = true -> forallb is_digit (canon l) = true.
Proof.
  intros H. unfold canon. pose proof (drop_zeros_digits l H) as Hz.
  destruct (drop_zeros l); [reflexivity | exact Hz].
Qed.

Lemma canon_nonzero_head (c : ascii) (r : list ascii) :
  Ascii.eqb c "0" = false -> canon (c :: r) = c :: r.
Proof. intros H. unfold canon. simpl. now rewrite H. Qed.

Lemma canon_zero_head (r : list ascii) :
  r <> [] -> canon ("0"%char :: r) = canon r.
Proof. intros _. reflexivity. Qed.

Lemma length_canon (l : list ascii) :
  l <> [] -> (List.length (canon l) <= List.length l)%nat.
Proof.
  induction l as [|c r IH]; [contradiction|]. intros _.
  destruct (Ascii.eqb c "0") eqn:E.
  - apply Ascii.eqb_eq in E. subst c.
    destruct r as [|c' r']; [simpl; lia|].
    rewrite canon_zero_head by discriminate.
    specialize (IH ltac:(discriminate)). simpl in *. lia.
  - rewrite canon_nonzero_head by exact E. lia.
Qed.

(** Padding the canonical form back to the original length restores the
    leading zeros. *)
Lemma pad_canon (l : list ascii) :
  l <> [] ->
  (repeat "0"%char (List.length l - List.length (canon l)) ++ canon l)%list = l.
Proof.
  induction l as [|c r IH]; [contradiction|]. intros _.
  destruct (Ascii.eqb c "0") eqn:E.
  - apply Ascii.eqb_eq in E. subst c.
    destruct r as [|c' r']; [reflexivity|].
    rewrite canon_zero_head by discriminate.
    pose proof (length_canon (c' :: r') ltac:(discriminate)) as Hlen.
    specialize (IH ltac:(discriminate)).
    change (List.length ("0"%char :: c' :: r')) with (S (List.length (c' :: r'))).
    rewrite Nat.sub_succ_l by exact Hlen.
    cbn [repeat app]. now rewrite IH.
  - rewrite canon_nonzero_head by exact E.
    now rewrite Nat.sub_diag.
Qed.

Lemma drop_zeros_repeat (k : nat) (x : list ascii) :
  drop_zeros (repeat "0"%char k ++ x)%list = drop_zeros x.
Proof. induction k as [|k IH]; [reflexivity | exact IH]. Qed.

Lemma rev_repeat_zero (k : nat) : rev (repeat "0"%char k) = repeat "0"%char k.
Proof.
  induction k as [|k IH]; [reflexivity|].
  simpl. rewrite IH. clear IH.
  induction k as [|k IH]; [reflexivity|]. simpl. now rewrite IH.
Qed.

(** Trimming the zeros a fraction was padded with gives the fraction
    back, when the fraction itself does not end in zero. *)
Lemma trim_padded (f : list ascii) (k : nat) :
  drop_zeros (rev f) = rev f ->
  rev (drop_zeros (rev (f ++ repeat "0"%char k)%list)) = f.
Proof.
  intros H. rewrite rev_app_distr, rev_repeat_zero, drop_zeros_repeat, H.
  apply rev_involutive.
Qed.

Lemma startsWith_minus_digits (l : list ascii) :
  forallb is_digit l = true -> startsWith "-" (of_chars l) = false.
Proof.
  destruct l as [|c r]; [reflexivity|]. simpl. intros H.
  apply andb_true_iff in H as [Hc _].
  destruct (Ascii.eqb c "-") eqn:E; [apply Ascii.eqb_eq in E; now subst c|reflexivity].
Qed.

Lemma is_digit_zero : is_digit "0" = true.
Proof. reflexivity. Qed.

Lemma repeat_zero_digits (k : nat) : forallb is_digit (repeat "0"%char k) = true.
Proof. induction k as [|k IH]; [reflexivity | exact IH]. Qed.

Lemma length_pad18 (f : list ascii) :
  (List.length f <= 18)%nat -> List.length (pad18 f) = 18%nat.
Proof. intros H. unfold pad18. rewrite length_app, repeat_length. lia. Qed.

Lemma pad18_digits (f : list ascii) :
  forallb is_digit f = true -> forallb is_digit (pad18 f) = true.
Proof. intros H. unfold pad18. now rewrite forallb_app, H, repeat_zero_digits. Qed.

Lemma canonical_integer_cases (i : list ascii) :
  Props.canonical_integer i = true ->
  forallb is_digit i = true
  /\ (i = ["0"%char] \/ exists c r, i = c :: r /\ Ascii.eqb c "0" = false).
Proof.
  unfold Props.canonical_integer. intros H.
  apply andb_true_iff in H as [Hd H]. split; [exact Hd|].
  destruct i as [|c r]; [discriminate|].
  destruct (Ascii.eqb c "0") eqn:E.
  - left. apply Ascii.eqb_eq in E. subst c. destruct r; [reflexivity | discriminate].
  - right. now exists c, r.
Qed.

(** [formatUnits] on the value of [i ++ f ++ 0...0]: the integer part
    comes back as [i], the fraction as [f]. *)
Lemma formatUnits_digits (i f : list ascii) :
  Props.canonical_integer i = true ->
  forallb is_digit f = true ->
  (List.length f <= 18)%nat ->
  drop_zeros (rev f) = rev f ->
  Viem.formatUnits (Z.of_N (N.of_uint (uint_of_digits (i ++ pad18 f)%list))) 18
  = of_chars i ++ (if String.eqb (of_chars f) "" then "" else "." ++ of_chars f).
Proof.
  intros Hi Hf Hlen Hlast.
  apply canonical_integer_cases in Hi as [Hid Hi].
  assert (HL : forallb is_digit (i ++ pad18 f)%list = true)
    by now rewrite forallb_app, Hid, pad18_digits.
  pose proof (length_pad18 f Hlen) as Hp.
  unfold Viem.formatUnits.
  rewrite (toString_digits _ HL).
  rewrite (startsWith_minus_digits _ (canon_digits _ HL)).
  unfold padStart0. rewrite !length_of_chars, !chars_of_chars.
  assert (Hdisplay :
    exists int, (repeat "0"%char (18 - List.length (canon (i ++ pad18 f)%list))
                   ++ canon (i ++ pad18 f)%list)%list = (int ++ pad18 f)%list
                /\ (if String.eqb (of_chars int) "" then "0" else of_chars int)
                   = of_chars i).
  { destruct Hi as [->|(c & r & -> & Hc)].
    - exists []. split; [|reflexivity].
      change (["0"%char] ++ pad18 f)%list with ("0"%char :: pad18 f).
      assert (Hne : pad18 f <> []) by (intros E; rewrite E in Hp; discriminate).
      rewrite canon_zero_head by exact Hne.
      rewrite <- Hp at 1. now apply pad_canon.
    - exists (c :: r). split.
      + change ((c :: r) ++ pad18 f)%list with (c :: (r ++ pad18 f)%list).
        rewrite canon_nonzero_head by exact Hc.
        replace (18 - List.length (c :: r ++ pad18 f)%list)%nat with 0%nat
          by (cbn [List.length]; rewrite length_app, Hp; lia).
        reflexivity.
      + reflexivity. }
  destruct Hdisplay as (int & -> & Hint).
  rewrite length_app, Hp.
  replace (List.length int + 18 - 18)%nat with (List.length int) by lia.
  unfold slice, slice_from, trim_trailing_zeros.
  rewrite !chars_of_chars. cbn [skipn]. rewrite Nat.sub_0_r.
  rewrite firstn_app, firstn_all, Nat.sub_diag. cbn [firstn]. rewrite List.app_nil_r.
  rewrite skipn_app, skipn_all, Nat.sub_diag. cbn [skipn app].
  unfold pad18. rewrite (trim_padded f _ Hlast).
  rewrite Hint. reflexivity.
Qed.

Lemma split_chars_nonempty (sep : ascii) (l : list ascii) : split_chars sep l <> [].
Proof.
  induction l as [|c r IH]; simpl; [discriminate|].
  destruct (Ascii.eqb c sep); [discriminate|].
  destruct (split_chars sep r); discriminate.
Qed.

Lemma split_chars_single (sep : ascii) (l i : list ascii) :
  split_chars sep l = [i] -> l = i.
Proof.
  revert i. induction l as [|c r IH]; simpl; intros i H.
  - now injection H.
  - destruct (Ascii.eqb c sep).
    + injection H as _ H. now apply split_chars_nonempty in H.
    + destruct (split_chars sep r) as [|h t] eqn:E;
        [now apply split_chars_nonempty in E|].
      injection H as <- ->. f_equal. now apply IH.
Qed.

Lemma split_chars_pair (sep : ascii) (l i f : list ascii) :
  split_chars sep l = [i; f] -> l = (i ++ sep :: f)%list.
Proof.
  revert i. induction l as [|c r IH]; simpl; intros i H; [discriminate|].
  destruct (Ascii.eqb c sep) eqn:Ec.
  - injection H as <- H. apply Ascii.eqb_eq in Ec. subst c.
    simpl. f_equal. now apply split_chars_single in H.
  - destruct (split_chars sep r) as [|h t] eqn:E;
      [now apply split_chars_nonempty in E|].
    injection H as <- ->. simpl. f_equal. now apply IH.
Qed.

Lemma drop_while_digits_app (l1 l2 : list ascii) :
  forallb is_digit l1 = true ->
  drop_while is_digit (l1 ++ l2)%list = drop_while is_digit l2.
Proof.
  induction l1 as [|c r IH]; intros H; [reflexivity|].
  simpl in H. apply andb_true_iff in H as [Hc Hr]. simpl. rewrite Hc. now apply IH.
Qed.

Lemma drop_while_digits_all (l : list ascii) :
  forallb is_digit l = true -> drop_while is_digit l = [].
Proof.
  intros H. rewrite <- (List.app_nil_r l). now rewrite drop_while_digits_app.
Qed.

Lemma canonical_fraction_facts (f : list ascii) :
  Props.canonical_fraction f = true ->
  forallb is_digit f = true /\ (List.length f <= 18)%nat
  /\ drop_zeros (rev f) = rev f /\ f <> [].
Proof.
  unfold Props.canonical_fraction. intros H.
  apply andb_true_iff in H as [H Hlast]. apply andb_true_iff in H as [Hd Hlen].
  apply Nat.leb_le in Hlen. repeat split; try assumption.
  - destruct (rev f) as [|c r]; [discriminate|]. simpl.
    apply negb_true_iff in Hlast. now rewrite Hlast.
  - intros ->. discriminate.
Qed.

Lemma canonical_integer_head (i : list ascii) :
  Props.canonical_integer i = true ->
  exists c r, i = c :: r /\ Ascii.eqb c "-" = false.
Proof.
  intros H. destruct i as [|c r]; [discriminate H|].
  apply canonical_integer_cases in H as [Hd _].
  simpl in Hd. apply andb_true_iff in Hd as [Hc _].
  exists c, r. split; [reflexivity|].
  destruct (Ascii.eqb c "-") eqn:E; [apply Ascii.eqb_eq in E; now subst c|reflexivity].
Qed.

(** The shape of a canonical amount: [i] alone or [i.f]. *)
Lemma canonical_amount_shape (s : string) :
  Props.is_canonical_amount s = true ->
  exists i f,
    Props.canonical_integer i = true
    /\ forallb is_digit f = true /\ (List.length f <= 18)%nat
    /\ drop_zeros (rev f) = rev f
    /\ ((f = [] /\ split_chars "." (chars s) = [i] /\ s = of_chars i)
        \/ (f <> [] /\ split_chars "." (chars s) = [i; f]
            /\ s = of_chars (i ++ "."%char :: f)%list)).
Proof.
  unfold Props.is_canonical_amount. intros H.
  destruct (split_chars "." (chars s)) as [|i [|f [|x rest]]] eqn:E; try discriminate.
  - exists i, [].
    split; [exact H|]. split; [reflexivity|]. split; [simpl; lia|].
    split; [reflexivity|].
    left. repeat split. apply split_chars_single in E.
    now rewrite <- E, of_chars_chars.
  - apply andb_true_iff in H as [Hi Hf].
    apply canonical_fraction_facts in Hf as (Hd & Hlen & Hlast & Hne).
    exists i, f. repeat split; try assumption.
    right. repeat split; try assumption. apply split_chars_pair in E.
    now rewrite <- E, of_chars_chars.
Qed.

Lemma is_decimal_number_canonical (i f : list ascii) :
  Props.canonical_integer i = true ->
  forallb is_digit f = true ->
  Viem.is_decimal_number (of_chars i) = true
  /\ Viem.is_decimal_number (of_chars (i ++ "."%char :: f)%list) = true.
Proof.
  intros Hi Hf. pose proof (canonical_integer_cases i Hi) as [Hd _].
  destruct (canonical_integer_head i Hi) as (c & r & Ei & Hc).
  unfold Viem.is_decimal_number. rewrite !chars_of_chars. split.
  - subst i. rewrite Hc.
    rewrite (drop_while_digits_all _ Hd). reflexivity.
  - subst i. cbn [app]. rewrite Hc.
    change (c :: (r ++ "."%char :: f)%list) with ((c :: r) ++ "."%char :: f)%list.
    rewrite (drop_while_digits_app _ _ Hd).
    simpl. exact Hf.
Qed.

Lemma trim_trailing_zeros_id (f : list ascii) :
  drop_zeros (rev f) = rev f -> trim_trailing_zeros (of_chars f) = of_chars f.
Proof.
  intros H. unfold trim_trailing_zeros. rewrite chars_of_chars, H.
  now rewrite rev_involutive.
Qed.

(** [parseUnits] at 18 decimals on a canonical amount: the digits of the
    integer part followed by the fraction padded to 18 digits. *)
Lemma parseEther_canonical (r : string -> Z) (s : string) (i f : list ascii) :
  Props.canonical_integer i = true ->
  forallb is_digit f = true -> (List.length f <= 18)%nat ->
  drop_zeros (rev f) = rev f ->
  (f = [] /\ split_chars "." (chars s) = [i] /\ s = of_chars i)
  \/ (f <> [] /\ split_chars "." (chars s) = [i; f]
      /\ s = of_chars (i ++ "."%char :: f)%list) ->
  Viem.parseEther r s
  = JS.Return (Z.of_N (N.of_uint (uint_of_digits (i ++ pad18 f)%list))).
Proof.
  intros Hi Hf Hlen Hlast Hshape.
  pose proof (canonical_integer_cases i Hi) as [Hid Hic].
  pose proof (is_decimal_number_canonical i f Hi Hf) as [Hdec1 Hdec2].
  assert (Hne : (i ++ pad18 f)%list <> []).
  { destruct Hic as [->|(c & r' & -> & _)]; discriminate. }
  assert (HL : forallb is_digit (i ++ pad18 f)%list = true)
    by now rewrite forallb_app, Hid, pad18_digits.
  assert (Hfinal : BigInt.of_string ("" ++ of_chars i ++ of_chars (pad18 f))
                   = JS.Return (Z.of_N (N.of_uint (uint_of_digits (i ++ pad18 f)%list)))).
  { cbn [String.append]. rewrite <- of_chars_app. unfold BigInt.of_string.
    now rewrite (StringToBigInt_digits _ Hne HL). }
  unfold Viem.parseEther, Viem.parseUnits, split.
  destruct Hshape as [(-> & Hsplit & Hs)|(Hfne & Hsplit & Hs)].
  - rewrite Hsplit. rewrite Hs at 1. rewrite Hdec1.
    cbn [negb map nth nth_error].
    rewrite (startsWith_minus_digits i Hid).
    change (trim_trailing_zeros "0") with "".
    cbn [Nat.eqb String.length Nat.ltb Nat.leb Viem.bind].
    exact Hfinal.
  - rewrite Hsplit. rewrite Hs at 1. rewrite Hdec2.
    cbn [negb map nth nth_error].
    rewrite (startsWith_minus_digits i Hid).
    rewrite (trim_trailing_zeros_id f Hlast).
    cbn [Nat.eqb]. rewrite length_of_chars.
    assert (Hlt : (18 <? List.length f)%nat = false) by (apply Nat.ltb_ge; exact Hlen).
    rewrite Hlt. cbn [Viem.bind].
    unfold padEnd0. rewrite length_of_chars, chars_of_chars.
    exact Hfinal.
Qed.

Lemma unorm_digits (l : list ascii) :
  forallb is_digit l = true ->
  Decimal.unorm (uint_of_digits l) = uint_of_digits (canon l).
Proof.
  intros Hd. unfold Decimal.unorm, canon. rewrite (nzhead_digits l Hd).
  destruct (drop_zeros l) as [|c r] eqn:Hz; [reflexivity|].
  destruct (uint_of_digits (c :: r)) eqn:Hu;
    [apply uint_of_digits_nil in Hu; discriminate|..]; reflexivity.
Qed.

(** Reading back what [toString] printed gives the number. *)
Lemma of_string_toString_digits (l : list ascii) :
  forallb is_digit l = true ->
  BigInt.of_string (BigInt.toString (Z.of_N (N.of_uint (uint_of_digits l))))
  = JS.Return (Z.of_N (N.of_uint (uint_of_digits l))).
Proof.
  intros Hd. rewrite (toString_digits l Hd). unfold BigInt.of_string.
  rewrite (StringToBigInt_digits _ (canon_nonempty l) (canon_digits l Hd)).
  rewrite <- (unorm_digits l Hd), DecimalN.Unsigned.of_uint_norm. reflexivity.
Qed.

Lemma min1_of_chars (l : list ascii) : l <> [] -> Server.min1 (of_chars l) = true.
Proof. destruct l; [contradiction | reflexivity]. Qed.

Lemma append_empty_r (s : string) : s ++ "" = s.
Proof. induction s as [|c s IH]; simpl; [reflexivity | now rewrite IH]. Qed.

Lemma canonical_is_representable (s : string) :
  Props.is_canonical_amount s = true -> Props.is_representable_amount s = true.
Proof.
  intros H. apply canonical_amount_shape in H
    as (i & f & Hi & Hf & Hlen & Hlast & Hshape).
  pose proof (is_decimal_number_canonical i f Hi Hf) as [Hdec1 Hdec2].
  destruct (canonical_integer_head i Hi) as (c & r & Ei & Hc).
  unfold Props.is_representable_amount, split.
  destruct Hshape as [(-> & Hsplit & Hs)|(Hfne & Hsplit & Hs)].
  - rewrite Hsplit. rewrite Hs at 1 2. rewrite Hdec1. subst i.
    cbn [of_chars string_of_list_ascii startsWith]. rewrite Hc. reflexivity.
  - rewrite Hsplit. rewrite Hs at 1 2. rewrite Hdec2. subst i.
    cbn [app of_chars string_of_list_ascii startsWith]. rewrite Hc.
    cbn [map nth negb andb]. rewrite length_of_chars. now apply Nat.leb_le.
Qed.

(** The round trip of the library functions on a canonical amount,
    with what the handlers need to know about the printed number. *)
Lemma ether_round_trip_core (r : string -> Z) (s : string) :
  Props.is_canonical_amount s = true ->
  exists wei : Z,
    0 <= wei
    /\ Viem.parseEther r s = JS.Return wei
    /\ Viem.formatEther wei = s
    /\ Server.min1 s = true
    /\ Server.min1 (BigInt.toString wei) = true
    /\ BigInt.of_string (BigInt.toString wei) = JS.Return wei.
Proof.
  intros H.
  pose proof (canonical_amount_shape s H) as (i & f & Hi & Hf & Hlen & Hlast & Hshape).
  pose proof (parseEther_canonical r s i f Hi Hf Hlen Hlast Hshape) as Hparse.
  pose proof (formatUnits_digits i f Hi Hf Hlen Hlast) as Hformat.
  pose proof (canonical_integer_cases i Hi) as [Hid _].
  assert (HL : forallb is_digit (i ++ pad18 f)%list = true)
    by now rewrite forallb_app, Hid, pad18_digits.
  pose proof (of_string_toString_digits _ HL) as Hback.
  assert (Hprinted : Server.min1
            (BigInt.toString (Z.of_N (N.of_uint (uint_of_digits (i ++ pad18 f)%list))))
          = true).
  { rewrite (toString_digits _ HL). apply min1_of_chars, canon_nonempty. }
  set (wei := Z.of_N (N.of_uint (uint_of_digits (i ++ pad18 f)%list))) in *.
  exists wei. split; [apply N2Z.is_nonneg|]. split; [exact Hparse|].
  split; [|split; [|split; [exact Hprinted | exact Hback]]].
  - unfold Viem.formatEther. rewrite Hformat.
    destruct Hshape as [(-> & _ & ->)|(Hfne & _ & ->)].
    + apply append_empty_r.
    + destruct f as [|c r']; [contradiction|].
      rewrite of_chars_app. reflexivity.
  - destruct (canonical_integer_head i Hi) as (c & r' & -> & _).
    destruct Hshape as [(_ & _ & ->)|(_ & _ & ->)]; reflexivity.
Qed.

Lemma printed_uint_digits (d : Decimal.uint) :
  forallb is_digit (chars (NilEmpty.string_of_uint d)) = true
  /\ uint_of_digits (chars (NilEmpty.string_of_uint d)) = d.
Proof.
  induction d as [|d [IH1 IH2]|d [IH1 IH2]|d [IH1 IH2]|d [IH1 IH2]|d [IH1 IH2]
                  |d [IH1 IH2]|d [IH1 IH2]|d [IH1 IH2]|d [IH1 IH2]|d [IH1 IH2]];
    [split; reflexivity|..];
    (split; [exact IH1 | cbn [NilEmpty.string_of_uint chars list_ascii_of_string uint_of_digits];
                         fold (chars (NilEmpty.string_of_uint d)); rewrite IH2; reflexivity]).
Qed.

Lemma drop_zeros_head (l : list ascii) (c : ascii) (r : list ascii) :
  drop_zeros l = c :: r -> Ascii.eqb c "0" = false.
Proof.
  induction l as [|x l IH]; simpl; [discriminate|].
  destruct (Ascii.eqb x "0") eqn:E; [exact IH|].
  intros H. injection H as <- _. exact E.
Qed.

Lemma drop_zeros_idempotent (l : list ascii) : drop_zeros (drop_zeros l) = drop_zeros l.
Proof.
  destruct (drop_zeros l) as [|c r] eqn:E; [reflexivity|].
  simpl. now rewrite (drop_zeros_head l c r E).
Qed.

Lemma canon_cases (l : list ascii) :
  canon l = ["0"%char] \/ exists c r, canon l = c :: r /\ Ascii.eqb c "0" = false.
Proof.
  unfold canon. destruct (drop_zeros l) as [|c r] eqn:E; [now left|].
  right. exists c, r. split; [reflexivity | exact (drop_zeros_head l c r E)].
Qed.

Lemma canon_idempotent (l : list ascii) : canon (canon l) = canon l.
Proof.
  destruct (canon_cases l) as [->|(c & r & -> & Hc)]; [reflexivity|].
  now apply canon_nonzero_head.
Qed.

Lemma value_canon (l : list ascii) :
  forallb is_digit l = true ->
  N.of_uint (uint_of_digits (canon l)) = N.of_uint (uint_of_digits l).
Proof.
  intros H. rewrite <- (unorm_digits l H). apply DecimalN.Unsigned.of_uint_norm.
Qed.

(** Every natural number is the value of a digit string without leading
    zeros. *)
Lemma N_has_canonical_digits (n : N) :
  exists l, forallb is_digit l = true /\ canon l = l
            /\ N.of_uint (uint_of_digits l) = n.
Proof.
  destruct (printed_uint_digits (N.to_uint n)) as [Hd Hu].
  exists (canon (chars (NilEmpty.string_of_uint (N.to_uint n)))).
  split; [now apply canon_digits|]. split; [apply canon_idempotent|].
  rewrite (value_canon _ Hd), Hu. apply DecimalN.Unsigned.of_to.
Qed.

Lemma length_drop_zeros (l : list ascii) :
  (List.length (drop_zeros l) <= List.length l)%nat.
Proof.
  induction l as [|c r IH]; simpl; [lia|].
  destruct (Ascii.eqb c "0"); simpl; lia.
Qed.

Lemma zeros_split (l : list ascii) :
  l = (repeat "0"%char (List.length l - List.length (drop_zeros l)) ++ drop_zeros l)%list.
Proof.
  induction l as [|c r IH]; [reflexivity|].
  cbn [drop_zeros]. destruct (Ascii.eqb c "0") eqn:E.
  - apply Ascii.eqb_eq in E. subst c.
    cbn [List.length]. rewrite Nat.sub_succ_l by apply length_drop_zeros.
    cbn [repeat app]. now rewrite <- IH.
  - now rewrite Nat.sub_diag.
Qed.

(** Trimming the trailing zeros of a string and padding back to its
    length restores it. *)
Lemma trim_then_pad (x : list ascii) :
  (rev (drop_zeros (rev x))
     ++ repeat "0"%char (List.length x - List.length (rev (drop_zeros (rev x)))))%list
  = x.
Proof.
  rewrite length_rev. rewrite <- (length_rev x) at 1.
  rewrite <- rev_repeat_zero, <- rev_app_distr, <- zeros_split.
  apply rev_involutive.
Qed.

Lemma is_digit_not_point (c : ascii) : is_digit c = true -> Ascii.eqb c "." = false.
Proof.
  intros H. destruct (Ascii.eqb c ".") eqn:E; [|reflexivity].
  apply Ascii.eqb_eq in E. now subst c.
Qed.

Lemma split_chars_digits (l : list ascii) :
  forallb is_digit l = true -> split_chars "." l = [l].
Proof.
  induction l as [|c r IH]; intros H; [reflexivity|].
  simpl in H. apply andb_true_iff in H as [Hc Hr].
  simpl. now rewrite (is_digit_not_point c Hc), (IH Hr).
Qed.

Lemma split_chars_point (i f : list ascii) :
  forallb is_digit i = true -> forallb is_digit f = true ->
  split_chars "." (i ++ "."%char :: f)%list = [i; f].
Proof.
  intros Hi Hf. induction i as [|c r IH].
  - simpl. now rewrite (split_chars_digits f Hf).
  - simpl in Hi. apply andb_true_iff in Hi as [Hc Hr].
    simpl. now rewrite (is_digit_not_point c Hc), (IH Hr).
Qed.

Lemma forallb_firstn {A : Type} (p : A -> bool) (n : nat) (l : list A) :
  forallb p l = true -> forallb p (firstn n l) = true.
Proof.
  revert n. induction l as [|x l IH]; intros [|n] H; try reflexivity.
  simpl in H |- *. apply andb_true_iff in H as [Hx Hl]. now rewrite Hx, IH.
Qed.

Lemma forallb_skipn {A : Type} (p : A -> bool) (n : nat) (l : list A) :
  forallb p l = true -> forallb p (skipn n l) = true.
Proof.
  revert n. induction l as [|x l IH]; intros [|n] H; try reflexivity; [exact H|].
  simpl in H |- *. apply andb_true_iff in H as [_ Hl]. now apply IH.
Qed.

(** A digit string without leading zeros splits into a canonical integer
    part and a trimmed fraction of the same value at 18 decimals. *)
Lemma decompose_amount (l : list ascii) :
  forallb is_digit l = true -> canon l = l ->
  exists i f,
    Props.canonical_integer i = true
    /\ forallb is_digit f = true /\ (List.length f <= 18)%nat
    /\ drop_zeros (rev f) = rev f
    /\ N.of_uint (uint_of_digits (i ++ pad18 f)%list) = N.of_uint (uint_of_digits l).
Proof.
  intros Hd Hc.
  set (F := if (List.length l <=? 18)%nat
            then (repeat "0"%char (18 - List.length l) ++ l)%list
            else skipn (List.length l - 18) l).
  set (i := if (List.length l <=? 18)%nat then ["0"%char]
            else firstn (List.length l - 18) l).
  assert (HF : List.length F = 18%nat).
  { unfold F. destruct (List.length l <=? 18)%nat eqn:E.
    - apply Nat.leb_le in E. rewrite length_app, repeat_length. lia.
    - apply Nat.leb_gt in E. rewrite length_skipn. lia. }
  assert (HFd : forallb is_digit F = true).
  { unfold F. destruct (List.length l <=? 18)%nat.
    - now rewrite forallb_app, repeat_zero_digits.
    - now apply forallb_skipn. }
  exists i, (rev (drop_zeros (rev F))).
  assert (Hpad : pad18 (rev (drop_zeros (rev F))) = F).
  { unfold pad18. rewrite <- HF at 1. apply trim_then_pad. }
  split.
  { unfold i, Props.canonical_integer.
    destruct (List.length l <=? 18)%nat eqn:E; [reflexivity|].
    apply Nat.leb_gt in E.
    rewrite (forallb_firstn _ _ _ Hd). cbn [andb].
    destruct (canon_cases l) as [H0|(c & r & Hl & Hnz)]; rewrite Hc in *.
    - subst l. simpl in E. lia.
    - subst l. destruct (List.length (c :: r) - 18)%nat as [|k] eqn:Ek;
        [simpl in E, Ek; lia|].
      cbn [firstn]. now rewrite Hnz. }
  split; [rewrite forallb_rev; apply drop_zeros_digits; now rewrite forallb_rev|].
  split.
  { rewrite length_rev. pose proof (length_drop_zeros (rev F)) as H.
    rewrite length_rev in H. lia. }
  split; [rewrite rev_involutive; apply drop_zeros_idempotent|].
  rewrite Hpad. unfold i, F.
  destruct (List.length l <=? 18)%nat eqn:E.
  - rewrite <- (value_canon l Hd), <- value_canon.
    + f_equal. f_equal. cbn [app].
      unfold canon. cbn [drop_zeros]. rewrite Ascii.eqb_refl.
      now rewrite drop_zeros_repeat.
    + cbn [app forallb]. now rewrite forallb_app, repeat_zero_digits.
  - now rewrite firstn_skipn.
Qed.

(** Every non-negative amount of smallest units prints in canonical
    writing, and parsing what was printed gives the amount back. *)
Lemma formatEther_canonical (r : string -> Z) (wei : Z) :
  0 <= wei ->
  Props.is_canonical_amount (Viem.formatEther wei) = true
  /\ Viem.parseEther r (Viem.formatEther wei) = JS.Return wei.
Proof.
  intros Hw.
  destruct (N_has_canonical_digits (Z.to_N wei)) as (l & Hd & Hc & Hv).
  destruct (decompose_amount l Hd Hc) as (i & f & Hi & Hf & Hlen & Hlast & Hval).
  pose proof (formatUnits_digits i f Hi Hf Hlen Hlast) as Hformat.
  rewrite Hval, Hv, Z2N.id in Hformat by exact Hw.
  pose proof (canonical_integer_cases i Hi) as [Hid _].
  unfold Viem.formatEther. rewrite Hformat.
  assert (Hshape :
    (f = [] /\ split_chars "."
                 (chars (of_chars i ++ (if String.eqb (of_chars f) "" then ""
                                        else "." ++ of_chars f))) = [i]
     /\ of_chars i ++ (if String.eqb (of_chars f) "" then "" else "." ++ of_chars f)
        = of_chars i)
    \/ (f <> [] /\ split_chars "."
                     (chars (of_chars i ++ (if String.eqb (of_chars f) "" then ""
                                            else "." ++ of_chars f))) = [i; f]
        /\ of_chars i ++ (if String.eqb (of_chars f) "" then "" else "." ++ of_chars f)
           = of_chars (i ++ "."%char :: f)%list)).
  { destruct f as [|c f'].
    - left. cbn [of_chars string_of_list_ascii String.eqb].
      rewrite append_empty_r, chars_of_chars.
      split; [reflexivity|]. split; [now apply split_chars_digits | reflexivity].
    - right. split; [discriminate|].
      assert (E : of_chars i ++ (if String.eqb (of_chars (c :: f')) "" then ""
                                 else "." ++ of_chars (c :: f'))
                  = of_chars (i ++ "."%char :: c :: f')%list)
        by (rewrite of_chars_app; reflexivity).
      rewrite E, chars_of_chars.
      split; [now apply split_chars_point | reflexivity]. }
  split.
  - unfold Props.is_canonical_amount.
    destruct Hshape as [(-> & -> & _)|(Hne & -> & _)]; [exact Hi|].
    rewrite Hi. cbn [andb]. unfold Props.canonical_fraction.
    rewrite Hf. apply Nat.leb_le in Hlen. rewrite Hlen. cbn [andb].
    destruct (rev f) as [|c r'] eqn:Er.
    + apply (f_equal (@rev ascii)) in Er. rewrite rev_involutive in Er.
      simpl in Er. contradiction.
    + apply negb_true_iff. exact (drop_zeros_head _ c r' Hlast).
  - rewrite (parseEther_canonical r _ i f Hi Hf Hlen Hlast Hshape).
    now rewrite Hval, Hv, Z2N.id.
Qed.

(** Format after parse is the identity exactly on the canonical
    writings. *)
Lemma ether_round_trip_iff (r : string -> Z) (s : string) (wei : Z) :
  Viem.parseEther r s = JS.Return wei -> 0 <= wei ->
  (Viem.formatEther wei = s <-> Props.is_canonical_amount s = true).
Proof.
  intros Hparse Hw. split.
  - intros <-. now apply (formatEther_canonical r).
  - intros Hc.
    destruct (ether_round_trip_core r s Hc) as (w & _ & Hp & Hf & _).
    rewrite Hparse in Hp. injection Hp as ->. exact Hf.
Qed.

(** C5, amended — for every amount in canonical writing (an integer
    part without superfluous leading zeros and, after a point, a
    non-empty fraction of at most 18 digits that does not end in zero),
    converting to the smallest unit and back gives the original string,
    for [parseEther] and [formatEther] and for the [parse_ether] and
    [format_ether] handlers that wrap them. *)
Theorem ether_round_trip_canonical :
  forall (zod_message : JS.Value -> string) (env : IO.Env) (t : IO.Trace) (s : string),
    Props.is_canonical_amount s = true ->
    exists wei : Z,
      0 <= wei
      /\ Viem.parseEther (IO.Math_round_Number env) s = JS.Return wei
      /\ Viem.formatEther wei = s
      /\ Server.parse_ether zod_message (JS.Object [("amount", JS.Str s)]) env t
         = (JS.Return (Server.mkText (s ++ " KAIA = " ++ BigInt.toString wei ++ " wei")), t)
      /\ Server.format_ether zod_message
           (JS.Object [("amount", JS.Str (BigInt.toString wei))]) env t
         = (JS.Return (Server.mkText (BigInt.toString wei ++ " wei = " ++ s ++ " KAIA")), t).
Proof.
  intros zod_message env t s H.
  destruct (ether_round_trip_core (IO.Math_round_Number env) s H)
    as (wei & Hw & Hparse & Hs & Hmin & Hprinted & Hback).
  exists wei. split; [exact Hw|]. split; [exact Hparse|]. split; [exact Hs|]. split.
  - unfold Server.parse_ether, IO.try_catch, IO.bind, IO.lift,
      Server.parseEther_parse, Server.parse_string_field,
      ViemM.parseEther, IO.bind, IO.ask, IO.lift.
    cbn [JS.lookup_field String.eqb Ascii.eqb Bool.eqb].
    rewrite Hmin, Hparse. reflexivity.
  - unfold Server.format_ether, IO.try_catch, IO.bind, IO.lift,
      Server.formatEther_parse, Server.parse_string_field.
    cbn [JS.lookup_field String.eqb Ascii.eqb Bool.eqb].
    rewrite Hprinted, Hback, Hs. reflexivity.
Qed.

End UnitFacts.

(** The example of the specification: ["1.5"] becomes
    [1500000000000000000] and comes back as ["1.5"]. *)
Lemma ether_round_trip_canonical_witness :
  exists wei : Z,
    Viem.parseEther (IO.Math_round_Number (Fixtures.env 0 Fixtures.ok_hash)) "1.5"
    = JS.Return wei
    /\ Viem.formatEther wei = "1.5".
Proof.
  destruct (ether_round_trip_canonical Fixtures.zod_message
              (Fixtures.env 0 Fixtures.ok_hash) [] "1.5" eq_refl)
    as (wei & _ & Hparse & Hformat & _).
  exists wei. split; [exact Hparse | exact Hformat].
Defined.

(** C5, as stated, fails: ["1.50"] is a non-negative decimal string with
    two fraction digits, it converts to [1500000000000000000], and that
    converts back to ["1.5"], not to ["1.50"]; the handlers print
    accordingly. *)
Lemma ether_round_trip_fails_on_trailing_zero :
  Props.is_representable_amount "1.50" = true
  /\ Viem.parseEther (IO.Math_round_Number (Fixtures.env 0 Fixtures.ok_hash)) "1.50"
     = JS.Return 1500000000000000000
  /\ Viem.formatEther 1500000000000000000 = "1.5"
  /\ "1.5" <> "1.50"
  /\ IO.run (Server.parse_ether Fixtures.zod_message
               (JS.Object [("amount", JS.Str "1.50")]))
            (Fixtures.env 0 Fixtures.ok_hash)
     = (JS.Return (Server.mkText "1.50 KAIA = 1500000000000000000 wei"), [])
  /\ IO.run (Server.format_ether Fixtures.zod_message
               (JS.Object [("amount", JS.Str "1500000000000000000")]))
            (Fixtures.env 0 Fixtures.ok_hash)
     = (JS.Return (Server.mkText "1500000000000000000 wei = 1.5 KAIA"), []).
Proof.
  split; [reflexivity|]. split; [reflexivity|]. split; [reflexivity|].
  split; [discriminate|]. split; reflexivity.
Qed.

(** Leading zeros and a missing integer part are normalised as well. *)
Lemma ether_round_trip_normalises :
  forall r,
    (Viem.parseEther r "01" = JS.Return 1000000000000000000
     /\ Viem.formatEther 1000000000000000000 = "1")
    /\ (Viem.parseEther r ".5" = JS.Return 500000000000000000
        /\ Viem.formatEther 500000000000000000 = "0.5")
    /\ (Viem.parseEther r "1." = JS.Return 1000000000000000000).
Proof. intros r. repeat split. Qed.
